(** * Kelly, the AI scientist poet: the reply controller of [app.py]

    A shallow embedding of the three functions behind the chat front end,
    [extract_text_from_response], [local_poem_fallback] and [kelly_reply],
    together with the part of Python's [str] they rely on. *)

From Stdlib Require Import List Bool Arith ZArith NArith QArith Lia Lqa.
From Stdlib Require Import Ascii String.
Import ListNotations.

Local Close Scope Q_scope.
Local Open Scope nat_scope.
Local Open Scope list_scope.

(** ** Python strings

    A Python [str] is a sequence of Unicode code points.  The persona text
    holds a code point outside ASCII and [str.strip] / [str.split] look at
    Unicode white space, so a string is a list of code points rather than a
    list of bytes. *)

Module PyStr.

Definition char : Type := N.
Definition str : Type := list char.

(** An ASCII literal, code point by code point. *)
Definition lit (s : string) : str := map N_of_ascii (list_ascii_of_string s).

Definition LF : char := 10%N.
Definition AMP : char := 38%N.

(** [str.isspace] on one code point: CPython's [_PyUnicode_IsWhitespace]. *)
Definition isspace (c : char) : bool :=
  ((9 <=? c) && (c <=? 13) || (28 <=? c) && (c <=? 32) || (c =? 133)
   || (c =? 160) || (c =? 5760) || (8192 <=? c) && (c <=? 8202)
   || (c =? 8232) || (c =? 8233) || (c =? 8239) || (c =? 8287)
   || (c =? 12288))%N.

(** Truth value of a string: [if s:] holds when [s] is not empty. *)
Definition truthy (s : str) : bool :=
  match s with [] => false | _ :: _ => true end.

Fixpoint lstrip (s : str) : str :=
  match s with
  | [] => []
  | c :: rest => if isspace c then lstrip rest else s
  end.

Definition rstrip (s : str) : str := rev (lstrip (rev s)).

(** [s.strip()] with no argument. *)
Definition strip (s : str) : str := rstrip (lstrip s).

(** [s.split()] with no argument: the maximal runs of code points that are
    not white space.  [cur] is the run being read, last code point first. *)
Fixpoint split_go (cur : str) (s : str) : list str :=
  match s with
  | [] => match cur with [] => [] | _ :: _ => [rev cur] end
  | c :: rest =>
      if isspace c
      then match cur with
           | [] => split_go [] rest
           | _ :: _ => rev cur :: split_go [] rest
           end
      else split_go (c :: cur) rest
  end.

Definition split (s : str) : list str := split_go [] s.

(** [s.startswith(p)]. *)
Fixpoint startswith (s p : str) : bool :=
  match p, s with
  | [], _ => true
  | _ :: _, [] => false
  | a :: p', b :: s' => (a =? b)%N && startswith s' p'
  end.

(** [needle in s]. *)
Fixpoint contains (needle s : str) : bool :=
  startswith s needle
  || match s with [] => false | _ :: rest => contains needle rest end.

(** [s.replace(old, new)] for a non-empty [old]: the occurrences are taken
    from the left and do not overlap.  [skip] counts the code points of the
    occurrence just replaced that are still to be passed over. *)
Fixpoint replace_go (old new : str) (skip : nat) (s : str) : str :=
  match s with
  | [] => []
  | c :: rest =>
      match skip with
      | S k => replace_go old new k rest
      | O =>
          if startswith s old
          then new ++ replace_go old new (List.length old - 1) rest
          else c :: replace_go old new 0 rest
      end
  end.

(** [s.replace(old, new)].  With an empty [old] Python puts [new] before
    every code point and at the end. *)
Definition replace (s old new : str) : str :=
  match old with
  | [] => new ++ flat_map (fun c => c :: new) s
  | _ :: _ => replace_go old new 0 s
  end.

(** [sep.join(items)]. *)
Fixpoint join (sep : str) (items : list str) : str :=
  match items with
  | [] => []
  | [x] => x
  | x :: rest => x ++ sep ++ join sep rest
  end.

(** The pieces of [s] between line feeds: [s.split(LF)], never empty. *)
Fixpoint lines_go (cur : str) (s : str) : list str :=
  match s with
  | [] => [rev cur]
  | c :: rest =>
      if (c =? LF)%N then rev cur :: lines_go [] rest
      else lines_go (c :: cur) rest
  end.

Definition lines_of (s : str) : list str := lines_go [] s.

(** Number of lines of a text: one more than its line feeds. *)
Definition line_count (s : str) : nat := List.length (lines_of s).

Definition count_char (c : char) (s : str) : nat :=
  List.length (filter (fun d => (d =? c)%N) s).

End PyStr.

Import PyStr.

(** ** The remote response

    What [extract_text_from_response] reads off a response of the remote
    model: every attribute is fetched with [getattr] and a default, so each
    level may be absent. *)

Record Part := { text : option str }.
Record Content := { parts : option (list Part) }.
Record Candidate := { content : option Content; finish_reason : option Z }.
Record Response := { candidates : option (list Candidate) }.

(** [getattr(x, name, []) or []]: an absent, [None] or empty list reads as
    the empty list. *)
Definition or_nil {A : Type} (l : option (list A)) : list A :=
  match l with Some xs => xs | None => [] end.

(** The inner [for part in ...] loop: appends to [parts_out] the text of
    every part whose text is present and not empty. *)
Definition collect_parts (parts_out : list str) (ps : list Part) : list str :=
  fold_left
    (fun acc part =>
       match text part with
       | Some txt => if truthy txt then acc ++ [txt] else acc
       | None => acc
       end)
    ps parts_out.

(** The outer [for cand in ...] loop; a candidate without content is
    skipped. *)
Definition collect_candidates (parts_out : list str) (cs : list Candidate)
  : list str :=
  fold_left
    (fun acc cand =>
       match content cand with
       | None => acc
       | Some c => collect_parts acc (or_nil (parts c))
       end)
    cs parts_out.

Definition extract_text_from_response (response : Response) : option str :=
  let parts_out := collect_candidates [] (or_nil (candidates response)) in
  match parts_out with
  | _ :: _ =>
      Some (join [LF]
              (map strip (filter (fun p => truthy (strip p)) parts_out)))
  | [] => None
  end.

(** ** Configuration and persona *)

Definition DEFAULT_MODEL : str := lit "models/gemini-flash-latest".
Definition FALLBACK_MODEL : str := lit "models/gemini-2.5-pro".

(** The triple-quoted persona text, with the line feed after the opening
    quotes and the one before the closing quotes; 8212 is the em dash. *)
Definition KELLY_SYSTEM_PROMPT : str :=
  [LF] ++ lit "You are Kelly " ++ [8212%N]
  ++ lit " an analytical poet and scientist. Answer in the form of a short poem."
  ++ [LF]
  ++ lit "Style: skeptical, analytical, professional. Include one or two practical suggestions or steps."
  ++ [LF]
  ++ lit "Keep lines concise and clear; avoid hype and be evidence-minded."
  ++ [LF].

(** ** The world outside the program *)

(** The keyword arguments of [genai.GenerationConfig]; the two decimal
    literals are kept as the rationals they denote. *)
Record GenerationConfig :=
  { temperature : Q; max_output_tokens : Z; top_p : Q }.

Record SafetySetting := { category : str; threshold : str }.

(** One call of [GenerativeModel(mdl).generate_content(...)]. *)
Record Request :=
  { model : str;
    contents : list str;
    generation_config : GenerationConfig;
    safety_settings : list SafetySetting }.

(** What the program does to the outside, in order: remote calls and
    [time.sleep] (in seconds). *)
Inductive Event :=
| Generate (req : Request)
| Sleep (seconds : Q).

(** A remote call returns a response or raises. *)
Inductive Outcome :=
| Raised
| Returned (response : Response).

(** A reply: [(text, source)]. *)
Definition Reply : Type := str * str.

(** The loop state of [kelly_reply]: the attempt counter and what has been
    done so far. *)
Record State := { attempt : Z; trace : list Event }.

(** How one pass through the inner loop ends: it ran to its end, it hit
    [break], or the function returned. *)
Inductive Flow :=
| Done (st : State)
| Broke (st : State)
| Return (r : Reply) (st : State).

Section Program.

(** [html.unescape(s)] returns [s] itself when it holds no ampersand, and
    otherwise substitutes every character reference; the substitution
    (the regular expression and the table of named entities of the
    standard library) is a parameter.  Here it stands for what the
    substitution returns; the module [Exn] below has the same functions
    with the substitution as it is, raising on some texts. *)
Variable charref_sub : str -> str.

(** The remote model: its answer to a request, given everything done
    before. *)
Variable generate_content : list Event -> Request -> Outcome.

Definition html_unescape (s : str) : str :=
  if existsb (fun c => (c =? AMP)%N) s then charref_sub s else s.

(** *** The local fallback poem *)

Definition poem_topic (p : str) : str :=
  let topic :=
    strip (replace (replace (replace p (lit "pipeline of") [])
                      (lit "Explain") [])
             (lit "explain") []) in
  if truthy topic then topic else lit "this topic".

Definition poem_lines (topic : str) : list str :=
  [ lit "In careful lines I study " ++ topic ++ lit ",";
    lit "A generator dreams, a critic critiques;";
    lit "Adversarial rhythm tunes model feats,";
    lit "Yet metrics warn where shortcuts meet.";
    lit "Practical: validate with held-out sets,";
    lit "Audit samples, and record your bets." ].

Definition local_poem_fallback (prompt : str) : str :=
  let p := strip (html_unescape prompt) in
  let topic := poem_topic p in
  let lines := poem_lines topic in
  let lines :=
    if List.length (split p) <=? 3 then firstn 4 lines else lines in
  join [LF] lines.

(** *** The reply controller *)

Definition paraphrases : list (str -> str) :=
  [ (fun q => q);
    (fun q =>
       q ++ lit " Please explain step by step and include practical suggestions.");
    (fun q => lit "In scientific terms, describe the stages of: " ++ q) ].

Definition model_attempts (model_name : str) : list str :=
  if negb (contains (lit "flash") model_name)
  then [model_name] ++ [lit "models/gemini-flash-latest"]
  else [model_name].

Definition base_prompt (prompt : str) : str :=
  let system := strip KELLY_SYSTEM_PROMPT in
  system ++ [LF; LF] ++ lit "User: " ++ prompt ++ [LF] ++ lit "Kelly:".

Definition the_generation_config : GenerationConfig :=
  {| temperature := 0.45%Q; max_output_tokens := 400%Z; top_p := 0.9%Q |}.

Definition the_safety_settings : list SafetySetting :=
  [ {| category := lit "HARM_CATEGORY_DANGEROUS_CONTENT";
       threshold := lit "BLOCK_NONE" |};
    {| category := lit "HARM_CATEGORY_HATE_SPEECH";
       threshold := lit "BLOCK_NONE" |} ].

(** The request of one attempt. *)
Definition request_of (prompt mdl : str) (parap : str -> str) : Request :=
  let q := parap prompt in
  {| model := mdl;
     contents := [replace (base_prompt prompt) prompt q];
     generation_config := the_generation_config;
     safety_settings := the_safety_settings |}.

(** The finish reason of the first candidate, when there is a candidate. *)
Definition first_finish_reason (response : Response) : option Z :=
  match candidates response with
  | Some (c :: _) => finish_reason c
  | _ => None
  end.

(** [fr == code] for a finish reason that may be [None]. *)
Definition opt_eqb (fr : option Z) (code : Z) : bool :=
  match fr with Some z => (z =? code)%Z | None => false end.

(** The [try] block of one attempt, from the events so far: the call, then
    either the reply to return or the events after the pause that precedes
    [continue].  An exception raised by the call is caught and the attempt
    ends as one without text. *)
Definition try_block (prompt mdl : str) (parap : str -> str)
  (tr : list Event) : option Reply * list Event :=
  let req := request_of prompt mdl parap in
  let called := tr ++ [Generate req] in
  match generate_content tr req with
  | Raised => (None, called ++ [Sleep 0.6%Q])
  | Returned response =>
      let text := extract_text_from_response response in
      let fr := first_finish_reason response in
      match text with
      | Some ((_ :: _) as t) => (Some (strip t, lit "gemini"), called)
      | _ =>
          if opt_eqb fr 2
          then (None, called ++ [Sleep 0.6%Q])
          else (None, called ++ [Sleep 0.4%Q])
      end
  end.

(** [for parap in paraphrases:], from the paraphrases still to try. *)
Fixpoint for_paraphrases (prompt mdl : str) (max_retries : Z)
  (todo : list (str -> str)) (st : State) : Flow :=
  match todo with
  | [] => Done st
  | parap :: rest =>
      let attempt := (attempt st + 1)%Z in
      if (attempt >? max_retries)%Z
      then Broke {| attempt := attempt; trace := trace st |}
      else
        match try_block prompt mdl parap (trace st) with
        | (Some r, tr) => Return r {| attempt := attempt; trace := tr |}
        | (None, tr) =>
            for_paraphrases prompt mdl max_retries rest
              {| attempt := attempt; trace := tr |}
        end
  end.

(** [for mdl in model_attempts:]; [break] leaves the inner loop only. *)
Fixpoint for_models (prompt : str) (max_retries : Z) (todo : list str)
  (st : State) : option Reply * State :=
  match todo with
  | [] => (None, st)
  | mdl :: rest =>
      match for_paraphrases prompt mdl max_retries paraphrases st with
      | Return r st' => (Some r, st')
      | Done st' | Broke st' => for_models prompt max_retries rest st'
      end
  end.

(** [kelly_reply(prompt, model_name, max_retries)]: the reply and the
    events of the call. *)
Definition kelly_reply (prompt model_name : str) (max_retries : Z)
  : Reply * list Event :=
  let st := {| attempt := 0; trace := [] |} in
  match for_models prompt max_retries (model_attempts model_name) st with
  | (Some r, st') => (r, trace st')
  | (None, st') => ((local_poem_fallback prompt, lit "fallback"), trace st')
  end.

End Program.

(** ** The specification's vocabulary *)

(** The text of every part of a response that has one, candidates first,
    then parts. *)
Definition part_texts (ps : list Part) : list str :=
  flat_map (fun part => match text part with Some t => [t] | None => [] end)
    ps.

Definition response_texts (response : Response) : list str :=
  flat_map
    (fun cand =>
       match content cand with
       | Some c => part_texts (or_nil (parts c))
       | None => []
       end)
    (or_nil (candidates response)).

(** The text the specification asks of the extractor: the trimmed text of
    every part, those that are empty once trimmed left out, joined by line
    feeds. *)
Definition joined_text (response : Response) : str :=
  join [LF] (filter truthy (map strip (response_texts response))).

(** [if text:] on what the extractor returned. *)
Definition opt_truthy (t : option str) : bool :=
  match t with Some s => truthy s | None => false end.

(** An outcome of the remote call that yields text. *)
Definition yields_text (o : Outcome) : bool :=
  match o with
  | Raised => false
  | Returned response => opt_truthy (extract_text_from_response response)
  end.

Definition is_generate (e : Event) : bool :=
  match e with Generate _ => true | Sleep _ => false end.

(** The remote calls of a trace. *)
Definition invocations (tr : list Event) : nat :=
  List.length (filter is_generate tr).

Definition requests (tr : list Event) : list Request :=
  flat_map (fun e => match e with Generate r => [r] | Sleep _ => [] end) tr.

(** Has a code point that is not white space. *)
Definition has_ink (s : str) : bool :=
  existsb (fun c => negb (isspace c)) s.

Definition FAST_MODEL : str := lit "models/gemini-flash-latest".

(** The Attempt Plan of the specification: every model of the model list
    with every paraphrase, model by model. *)
Definition attempt_plan (model_name : str) : list (str * (str -> str)) :=
  let models :=
    if contains (lit "flash") model_name then [model_name]
    else [model_name; FAST_MODEL] in
  flat_map (fun mdl => map (fun parap => (mdl, parap)) paraphrases) models.

(** The request of a planned attempt. *)
Definition request_at (prompt : str) (a : str * (str -> str)) : Request :=
  request_of prompt (fst a) (snd a).


(** The attempts the budget still allows. *)
Definition budget (max_retries : Z) (st : State) : nat :=
  Z.to_nat (max_retries - attempt st).

Section Plan.

Variable charref_sub : str -> str.
Variable generate_content : list Event -> Request -> Outcome.

(** Bounded iteration over a plan: the attempts are made in order and the
    first that yields text ends the run. *)
Fixpoint run_plan (prompt : str) (plan : list (str * (str -> str)))
  (tr : list Event) : option Reply * list Event :=
  match plan with
  | [] => (None, tr)
  | (mdl, parap) :: rest =>
      match try_block generate_content prompt mdl parap tr with
      | (Some r, tr') => (Some r, tr')
      | (None, tr') => run_plan prompt rest tr'
      end
  end.

(** The reply of the specification: the plan cut to [max_retries]
    attempts, then the local poem. *)
Definition plan_reply (prompt model_name : str) (max_retries : Z)
  : Reply * list Event :=
  match
    run_plan prompt (firstn (Z.to_nat max_retries) (attempt_plan model_name))
      []
  with
  | (Some r, tr) => (r, tr)
  | (None, tr) =>
      ((local_poem_fallback charref_sub prompt, lit "fallback"), tr)
  end.

End Plan.

(** ** Sample inputs *)

(** A response whose only part holds one space. *)
Definition blank_response : Response :=
  {| candidates :=
       Some [ {| content := Some {| parts := Some [ {| text := Some (lit " ") |} ] |};
                 finish_reason := None |} ] |}.

(** Two candidates; the first has an absent text, a padded one and a
    blank one, the second has no content, the third has one more text. *)
Definition mixed_response : Response :=
  {| candidates :=
       Some [ {| content :=
                   Some {| parts :=
                             Some [ {| text := None |};
                                    {| text := Some (lit "  first ") |};
                                    {| text := Some (lit "   ") |};
                                    {| text := Some (lit "second") |} ] |};
                 finish_reason := Some 1%Z |};
              {| content := None; finish_reason := None |};
              {| content := Some {| parts := None |}; finish_reason := None |};
              {| content :=
                   Some {| parts := Some [ {| text := Some (lit "third") |} ] |};
                 finish_reason := None |} ] |}.

(** Prompts of the user, some over several lines. *)
Definition gan_prompt : str := lit "Explain the pipeline of a GAN".
Definition two_line_prompt : str := lit "a" ++ [LF] ++ lit "b".

(** A remote model that is unreachable, and one that answers from the
    second call on. *)
Definition always_raises (h : list Event) (req : Request) : Outcome :=
  Raised.

Definition no_charref (s : str) : str := s.

Definition answers_second (h : list Event) (req : Request) : Outcome :=
  match h with
  | [] => Raised
  | _ :: _ => Returned mixed_response
  end.

(** A prompt that is also a word of the persona text, and the second
    paraphrase. *)
Definition poem_prompt : str := lit "poem".

Definition step_by_step : str -> str := nth 1 paraphrases (fun q => q).

(** The text the second attempt sends for [poem_prompt]. *)
Definition poem_request_text : str :=
  lit "You are Kelly " ++ [8212%N]
  ++ lit " an analytical poet and scientist. Answer in the form of a short poem Please explain step by step and include practical suggestions.."
  ++ [LF]
  ++ lit "Style: skeptical, analytical, professional. Include one or two practical suggestions or steps."
  ++ [LF]
  ++ lit "Keep lines concise and clear; avoid hype and be evidence-minded."
  ++ [LF; LF]
  ++ lit "User: poem Please explain step by step and include practical suggestions."
  ++ [LF] ++ lit "Kelly:".

(** The fixed part of the composed text before the prompt, and the part
    after it. *)
Definition preamble : str :=
  strip KELLY_SYSTEM_PROMPT ++ [LF; LF] ++ lit "User: ".

Definition closing : str := [LF] ++ lit "Kelly:".

(** [old] starts at no position of [s] below [n]. *)
Definition absent_before (old s : str) (n : nat) : Prop :=
  forall i, i < n -> startswith (skipn i s) old = false.

(** The decidable form of [absent_before]. *)
Definition absent_beforeb (old s : str) (n : nat) : bool :=
  forallb (fun i => negb (startswith (skipn i s) old)) (seq 0 n).

(** ** The chat session

    The part of the script below the sidebar: the transcript kept in
    [st.session_state.history], the two buttons and the check of the API key
    that the script makes before anything else.  Streamlit runs the script
    from the top at every interaction; the widgets that only draw are left
    out.  The functions of this module take [html.unescape] as returning;
    the module [Exn] has them with its exception. *)

Module Chat.

(** [a == b] on strings. *)
Fixpoint str_eqb (a b : str) : bool :=
  match a, b with
  | [], [] => true
  | x :: a', y :: b' => (x =? y)%N && str_eqb a' b'
  | _, _ => false
  end.

(** One entry of the transcript: a dict with the keys [role] and
    [content]. *)
Record Turn := { role : str; content : str }.

Definition History : Type := list Turn.

Definition FALLBACK_NOTE : str :=
  [LF; LF]
  ++ lit "(Kelly note: the model returned no text; showing a local analytical fallback.)".

Definition KEY_ERROR : str :=
  lit "Please set your GEMINI_API_KEY in a .env file or Streamlit secrets.".

(** What the widgets return in one run of the script. *)
Record Widgets :=
  { model_choice : str;
    retries : Z;
    clear_clicked : bool;
    user_input : str;
    ask_clicked : bool }.

(** The options of the model select box and the bounds of the slider. *)
Definition model_options : list str :=
  [ lit "models/gemini-flash-latest";
    lit "models/gemini-2.5-pro";
    lit "models/gemini-2.5-flash" ].

Definition RETRIES_MIN : Z := 1.
Definition RETRIES_MAX : Z := 6.

(** How a run of the script ends: halted by [st.stop()] after the error,
    or run to its end. *)
Inductive Run :=
| Stopped (error : str)
| Finished.

Section Script.

Variable charref_sub : str -> str.
Variable generate_content : list Event -> Request -> Outcome.

(** The body of [if st.button("Ask Kelly"):], from the transcript: the new
    transcript and the events of the remote calls. *)
Definition ask_kelly (history : History) (input model : str) (max_retries : Z)
  : History * list Event :=
  if truthy (strip input)
  then
    let history := history ++ [ {| role := lit "user"; content := input |} ] in
    let '((text, source), tr) :=
      kelly_reply charref_sub generate_content input model max_retries in
    let text :=
      if str_eqb source (lit "fallback") then text ++ FALLBACK_NOTE
      else text in
    (history ++ [ {| role := lit "assistant"; content := text |} ], tr)
  else (history, []).

(** One run of the script.  [key] is what [os.getenv] returned and
    [session] the transcript of the session state, absent in a new
    session. *)
Definition rerun (key : option str) (session : option History) (w : Widgets)
  : Run * option History * list Event :=
  if negb (opt_truthy key) then (Stopped KEY_ERROR, session, [])
  else
    let session := if clear_clicked w then Some [] else session in
    let history := match session with Some h => h | None => [] end in
    if ask_clicked w
    then
      let '(history, tr) :=
        ask_kelly history (user_input w) (model_choice w) (retries w) in
      (Finished, Some history, tr)
    else (Finished, Some history, []).

End Script.

(** A session: the runs of the script one after the other, each with the
    widgets of the run and with the remote model as it answers during that
    run.  The transcripts after each run are collected. *)
Fixpoint session_runs (charref_sub : str -> str) (key : option str)
  (session : option History)
  (runs : list (Widgets * (list Event -> Request -> Outcome)))
  : option History :=
  match runs with
  | [] => session
  | (w, remote) :: rest =>
      let '(_, session', _) := rerun charref_sub remote key session w in
      session_runs charref_sub key session' rest
  end.

(** The roles of a transcript come in pairs: a user turn, then the
    assistant turn that answers it. *)
Fixpoint paired (h : History) : Prop :=
  match h with
  | [] => True
  | u :: a :: rest =>
      role u = lit "user" /\ role a = lit "assistant"
      /\ content a <> [] /\ paired rest
  | [_] => False
  end.

End Chat.

(** ** More vocabulary *)

(** The pause the controller makes after an attempt without text. *)
Definition pause_after (o : Outcome) : Q :=
  match o with
  | Raised => 0.6%Q
  | Returned response =>
      if opt_eqb (first_finish_reason response) 2 then 0.6%Q else 0.4%Q
  end.

(** The pauses of a trace and their sum, in seconds. *)
Definition pauses (tr : list Event) : list Q :=
  flat_map (fun e => match e with Sleep d => [d] | Generate _ => [] end) tr.

Definition slept (tr : list Event) : Q :=
  fold_right Qplus 0%Q (pauses tr).

(** The shape of what a run adds to the trace: every attempt without text
    is a call and a pause, and an attempt with text is a call that ends
    the run. *)
Inductive run_shape : bool -> list Event -> Prop :=
| shape_end : run_shape false []
| shape_hit (req : Request) : run_shape true [Generate req]
| shape_miss (req : Request) (d : Q) (hit : bool) (ext : list Event) :
    d = 0.4%Q \/ d = 0.6%Q ->
    run_shape hit ext ->
    run_shape hit (Generate req :: Sleep d :: ext).

Definition is_some {A : Type} (o : option A) : bool :=
  match o with Some _ => true | None => false end.

(** Starts with a code point that is not white space. *)
Definition headed (s : str) : Prop :=
  match s with
  | [] => False
  | c :: _ => isspace c = false
  end.

(** Made of white space only. *)
Definition blank (s : str) : bool := forallb isspace s.

Definition has_amp (s : str) : bool := existsb (fun c => (c =? AMP)%N) s.

(** The poem for a prompt without topic. *)
Definition topicless_poem : str :=
  join [LF] (firstn 4 (poem_lines (lit "this topic"))).

(** A remote model that blocks every request for safety. *)
Definition blocked_response : Response :=
  {| candidates :=
       Some [ {| content := None; finish_reason := Some 2%Z |} ] |}.

Definition always_blocks (h : list Event) (req : Request) : Outcome :=
  Returned blocked_response.

(** Two runs of the script in a new session: a question while the remote
    model is unreachable, then one that is answered at the second call. *)
Definition two_questions
  : list (Chat.Widgets * (list Event -> Request -> Outcome)) :=
  [ ({| Chat.model_choice := FALLBACK_MODEL; Chat.retries := 2;
        Chat.clear_clicked := false; Chat.user_input := gan_prompt;
        Chat.ask_clicked := true |}, always_raises);
    ({| Chat.model_choice := DEFAULT_MODEL; Chat.retries := 3;
        Chat.clear_clicked := false; Chat.user_input := lit "hi";
        Chat.ask_clicked := true |}, answers_second) ].

(** ** The program with its exception

    [html.unescape] raises [ValueError] on some texts: a decimal character
    reference of more than 4300 digits is handed to [int], which refuses
    it.  Nothing catches the exception: the call in [local_poem_fallback]
    and the call of the fallback at the end of [kelly_reply] stand outside
    the [try], and the script appends the user turn before it calls
    [kelly_reply].  The functions below are the ones above with the
    substitution as it is: [None] is the exception on its way out. *)

Module Exn.

(** How a run of the script ends: halted by [st.stop()] after the error,
    run to its end, or ended by an exception. *)
Inductive Run :=
| Stopped (error : str)
| Finished
| Failed.

Section Program.

(** The substitution of the character references; [None] when it
    raises. *)
Variable charref_sub : str -> option str.

Variable generate_content : list Event -> Request -> Outcome.

Definition html_unescape (s : str) : option str :=
  if existsb (fun c => (c =? AMP)%N) s then charref_sub s else Some s.

Definition local_poem_fallback (prompt : str) : option str :=
  match html_unescape prompt with
  | None => None
  | Some unescaped =>
      let p := strip unescaped in
      let topic := poem_topic p in
      let lines := poem_lines topic in
      let lines :=
        if List.length (split p) <=? 3 then firstn 4 lines else lines in
      Some (join [LF] lines)
  end.

(** [kelly_reply]: the loops are the ones above; the fallback after them
    may raise. *)
Definition kelly_reply (prompt model_name : str) (max_retries : Z)
  : option Reply * list Event :=
  let st := {| attempt := 0; trace := [] |} in
  match
    for_models generate_content prompt max_retries
      (model_attempts model_name) st
  with
  | (Some r, st') => (Some r, trace st')
  | (None, st') =>
      match local_poem_fallback prompt with
      | Some fallback_text =>
          (Some (fallback_text, lit "fallback"), trace st')
      | None => (None, trace st')
      end
  end.

(** The body of [if st.button("Ask Kelly"):]: the new transcript, the
    events, and whether an exception ended it.  The user turn is appended
    before [kelly_reply] is called and stays when the call raises. *)
Definition ask_kelly (history : Chat.History) (input model : str)
  (max_retries : Z) : Chat.History * list Event * bool :=
  if truthy (strip input)
  then
    let history :=
      history ++ [ {| Chat.role := lit "user"; Chat.content := input |} ] in
    match kelly_reply input model max_retries with
    | (Some (text, source), tr) =>
        let text :=
          if Chat.str_eqb source (lit "fallback")
          then text ++ Chat.FALLBACK_NOTE
          else text in
        (history
         ++ [ {| Chat.role := lit "assistant"; Chat.content := text |} ],
         tr, false)
    | (None, tr) => (history, tr, true)
    end
  else (history, [], false).

(** One run of the script. *)
Definition rerun (key : option str) (session : option Chat.History)
  (w : Chat.Widgets) : Run * option Chat.History * list Event :=
  if negb (opt_truthy key) then (Stopped Chat.KEY_ERROR, session, [])
  else
    let session := if Chat.clear_clicked w then Some [] else session in
    let history := match session with Some h => h | None => [] end in
    if Chat.ask_clicked w
    then
      let '(history, tr, raised) :=
        ask_kelly history (Chat.user_input w) (Chat.model_choice w)
          (Chat.retries w) in
      (if raised then Failed else Finished, Some history, tr)
    else (Finished, Some history, []).

End Program.

(** The runs of a session one after the other. *)
Fixpoint session_runs (charref_sub : str -> option str) (key : option str)
  (session : option Chat.History)
  (runs : list (Chat.Widgets * (list Event -> Request -> Outcome)))
  : option Chat.History :=
  match runs with
  | [] => session
  | (w, remote) :: rest =>
      let '(_, session', _) := rerun charref_sub remote key session w in
      session_runs charref_sub key session' rest
  end.

End Exn.

(** What a substitution returns, for the functions above that take it as
    returning. *)
Definition returned (charref_sub : str -> option str) (s : str) : str :=
  match charref_sub s with Some u => u | None => [] end.

(** A substitution that finds no reference, and one that raises on every
    text it is given. *)
Definition plain_charref (s : str) : option str := Some s.
Definition failing_charref (s : str) : option str := None.

(** A prompt with a character reference, and a question with it while the
    remote model is unreachable. *)
Definition reference_prompt : str := lit "&#38; why?".

Definition reference_question : Chat.Widgets :=
  {| Chat.model_choice := DEFAULT_MODEL; Chat.retries := 1;
     Chat.clear_clicked := false; Chat.user_input := reference_prompt;
     Chat.ask_clicked := true |}.

(** * Properties *)

(** ** Strings *)

Section StrFacts.

Lemma lines_go_length (cur s : str) :
  List.length (lines_go cur s) = S (count_char LF s).
Proof.
  revert cur; induction s as [|c s IH]; intro cur; simpl.
  - reflexivity.
  - unfold count_char; simpl.
    destruct (c =? LF)%N; simpl; rewrite IH; reflexivity.
Qed.

Lemma line_count_LF (s : str) : line_count s = S (count_char LF s).
Proof. apply lines_go_length. Qed.

Lemma count_char_app (c : char) (s t : str) :
  count_char c (s ++ t) = count_char c s + count_char c t.
Proof. unfold count_char; now rewrite filter_app, length_app. Qed.

Lemma count_char_cons (c d : char) (s : str) :
  count_char c (d :: s) = count_char c [d] + count_char c s.
Proof. apply (count_char_app c [d] s). Qed.

Lemma count_char_rev (c : char) (s : str) :
  count_char c (rev s) = count_char c s.
Proof.
  induction s as [|d s IH]; [reflexivity|].
  simpl rev; rewrite count_char_app, IH.
  unfold count_char; simpl; destruct (d =? c)%N; simpl; lia.
Qed.

Lemma count_char_lstrip (c : char) (s : str) :
  count_char c (lstrip s) <= count_char c s.
Proof.
  induction s as [|d s IH]; [simpl; lia|].
  cbn [lstrip]; destruct (isspace d); [|lia].
  rewrite count_char_cons; lia.
Qed.

Lemma count_char_strip (c : char) (s : str) :
  count_char c (strip s) <= count_char c s.
Proof.
  unfold strip, rstrip; rewrite count_char_rev.
  etransitivity; [apply count_char_lstrip|].
  rewrite count_char_rev; apply count_char_lstrip.
Qed.

Lemma count_char_replace_go (c : char) (old : str) (k : nat) (s : str) :
  count_char c (replace_go old [] k s) <= count_char c s.
Proof.
  revert k; induction s as [|d s IH]; intro k; [simpl; lia|].
  rewrite (count_char_cons c d s).
  destruct k as [|k]; cbn [replace_go].
  - destruct (startswith (d :: s) old); cbn [app].
    + specialize (IH (List.length old - 1)); lia.
    + rewrite count_char_cons; specialize (IH 0); lia.
  - specialize (IH k); lia.
Qed.

(** Deleting the occurrences of a phrase adds no line feed. *)
Lemma count_char_delete (c : char) (s old : str) :
  old <> [] -> count_char c (replace s old []) <= count_char c s.
Proof.
  destruct old as [|a old]; [congruence|intros _].
  apply count_char_replace_go.
Qed.

Lemma has_ink_app (s t : str) : has_ink (s ++ t) = has_ink s || has_ink t.
Proof. apply existsb_app. Qed.

Lemma has_ink_rev (s : str) : has_ink (rev s) = has_ink s.
Proof.
  induction s as [|c s IH]; [reflexivity|].
  simpl rev; rewrite has_ink_app, IH; simpl.
  rewrite orb_false_r; apply orb_comm.
Qed.

Lemma has_ink_lstrip (s : str) : has_ink (lstrip s) = has_ink s.
Proof.
  induction s as [|c s IH]; [reflexivity|].
  unfold has_ink in *; cbn [lstrip existsb].
  destruct (isspace c) eqn:E; cbn [existsb negb orb]; [exact IH|].
  now rewrite E.
Qed.

Lemma has_ink_strip (s : str) : has_ink (strip s) = has_ink s.
Proof.
  unfold strip, rstrip.
  now rewrite has_ink_rev, has_ink_lstrip, has_ink_rev, has_ink_lstrip.
Qed.

Lemma lstrip_truthy_ink (s : str) :
  truthy (lstrip s) = true -> has_ink (lstrip s) = true.
Proof.
  induction s as [|c s IH]; [discriminate|].
  cbn [lstrip]; destruct (isspace c) eqn:E; [exact IH|].
  intros _; unfold has_ink; cbn [existsb]; now rewrite E.
Qed.

Lemma truthy_rev (s : str) : truthy (rev s) = truthy s.
Proof.
  destruct s as [|c s]; [reflexivity|]; simpl.
  destruct (rev s); reflexivity.
Qed.

(** A text that is not empty once trimmed has a visible code point, and
    conversely. *)
Lemma strip_truthy_ink (s : str) : truthy (strip s) = has_ink s.
Proof.
  destruct (truthy (strip s)) eqn:E.
  - symmetry; rewrite <- has_ink_strip.
    unfold strip, rstrip in *; rewrite truthy_rev in E.
    rewrite has_ink_rev; now apply lstrip_truthy_ink.
  - destruct (has_ink s) eqn:F; [|reflexivity].
    rewrite <- has_ink_strip in F.
    destruct (strip s); [discriminate F|discriminate E].
Qed.

Lemma truthy_nonempty (s : str) : truthy s = true <-> s <> [].
Proof. destruct s; simpl; split; congruence. Qed.

Lemma has_ink_join_head (sep x : str) (rest : list str) :
  has_ink x = true -> has_ink (join sep (x :: rest)) = true.
Proof.
  intro H; destruct rest as [|y rest]; [exact H|].
  change (join sep (x :: y :: rest)) with (x ++ sep ++ join sep (y :: rest)).
  now rewrite has_ink_app, H.
Qed.

End StrFacts.

(** ** The response extractor *)

Section ExtractorFacts.

Lemma collect_parts_texts (acc : list str) (ps : list Part) :
  collect_parts acc ps = acc ++ filter truthy (part_texts ps).
Proof.
  unfold collect_parts, part_texts.
  revert acc; induction ps as [|p ps IH]; intro acc; cbn [fold_left flat_map].
  - now rewrite app_nil_r.
  - rewrite IH, filter_app.
    destruct (text p) as [t|]; cbn [filter app]; [|reflexivity].
    destruct (truthy t); cbn [app]; [|reflexivity].
    now rewrite <- app_assoc.
Qed.

Lemma collect_candidates_texts (acc : list str) (cs : list Candidate) :
  collect_candidates acc cs
  = acc ++ filter truthy (response_texts {| candidates := Some cs |}).
Proof.
  unfold collect_candidates, response_texts; cbn [candidates or_nil].
  revert acc; induction cs as [|c cs IH]; intro acc; cbn [fold_left flat_map].
  - now rewrite app_nil_r.
  - rewrite IH, filter_app.
    destruct (content c) as [k|]; cbn [filter app]; [|reflexivity].
    now rewrite collect_parts_texts, <- app_assoc.
Qed.

Lemma response_texts_or_nil (r : Response) :
  response_texts {| candidates := Some (or_nil (candidates r)) |}
  = response_texts r.
Proof. reflexivity. Qed.

(** The extractor in one line: the texts that are not empty are kept, and
    when there is one the kept texts are trimmed, those left empty are
    dropped and the rest is joined. *)
Lemma extract_text_unfold (r : Response) :
  extract_text_from_response r
  = match filter truthy (response_texts r) with
    | [] => None
    | (_ :: _) as kept =>
        Some (join [LF]
                (map strip (filter (fun p => truthy (strip p)) kept)))
    end.
Proof.
  unfold extract_text_from_response.
  rewrite collect_candidates_texts, response_texts_or_nil; cbn [app].
  destruct (filter truthy (response_texts r)); reflexivity.
Qed.

Lemma truthy_strip_truthy (t : str) :
  truthy (strip t) = true -> truthy t = true.
Proof. destruct t; [discriminate|reflexivity]. Qed.

Lemma trimmed_kept (l : list str) :
  map strip (filter (fun p => truthy (strip p)) (filter truthy l))
  = filter truthy (map strip l).
Proof.
  induction l as [|t l IH]; [reflexivity|].
  cbn [filter map].
  destruct (truthy (strip t)) eqn:E.
  - rewrite (truthy_strip_truthy t E); cbn [filter].
    rewrite E; cbn [map]; now rewrite IH.
  - destruct (truthy t); cbn [filter]; [rewrite E|]; exact IH.
Qed.

Lemma filter_truthy_nil (l : list str) :
  filter truthy l = [] <-> (forall t, In t l -> t = []).
Proof.
  induction l as [|t l IH]; cbn [filter].
  - split; [intros _ t []|reflexivity].
  - destruct t as [|c t]; cbn [truthy].
    + rewrite IH; split.
      * intros H t [<-|Ht]; [reflexivity|now apply H].
      * intros H t Ht; apply H; now right.
    + split; [discriminate|].
      intro H; specialize (H (c :: t) (or_introl eq_refl)); discriminate.
Qed.

Lemma filter_trimmed_nil (l : list str) :
  (forall t, In t l -> strip t = []) -> filter truthy (map strip l) = [].
Proof.
  intro H; apply filter_truthy_nil; intros t Ht.
  apply in_map_iff in Ht as (u & <- & Hu); now apply H.
Qed.

End ExtractorFacts.

(** C4, as the code has it: when no part of the response has text left
    after trimming, the extractor returns nothing the controller takes for
    text.  It returns [None] when no part has any text at all (no
    candidate, no content, no parts, absent or empty text), and the empty
    string when some part holds white space only. *)
Theorem extract_text_without_text (r : Response) :
  (forall t, In t (response_texts r) -> strip t = []) ->
  opt_truthy (extract_text_from_response r) = false
  /\ ((forall t, In t (response_texts r) -> t = []) ->
      extract_text_from_response r = None)
  /\ ((exists t, In t (response_texts r) /\ t <> []) ->
      extract_text_from_response r = Some []).
Proof.
  intro Hblank; rewrite extract_text_unfold.
  destruct (filter truthy (response_texts r)) as [|k kept] eqn:E.
  - split; [reflexivity|]; split; [reflexivity|].
    intros (t & Ht & Hne); exfalso; apply Hne.
    now apply (proj1 (filter_truthy_nil _) E).
  - rewrite <- E, trimmed_kept, (filter_trimmed_nil _ Hblank).
    split; [reflexivity|]; split; [|reflexivity].
    intro Hall; apply filter_truthy_nil in Hall; congruence.
Qed.

Lemma extract_text_without_text_witness :
  extract_text_from_response {| candidates := Some [] |} = None
  /\ opt_truthy (extract_text_from_response blank_response) = false.
Proof.
  split.
  - apply (extract_text_without_text {| candidates := Some [] |}).
    + intros t [].
    + intros t [].
  - apply (extract_text_without_text blank_response).
    intros t [<-|[]]; reflexivity.
Defined.

(** C4 as stated fails: every text of [blank_response] is empty once
    trimmed, and the extractor returns the empty string, not [None]. *)
Lemma extract_text_blank_not_none :
  (forall t, In t (response_texts blank_response) -> strip t = [])
  /\ extract_text_from_response blank_response = Some []
  /\ extract_text_from_response blank_response <> None.
Proof.
  split; [intros t [<-|[]]; reflexivity|].
  split; [reflexivity|discriminate].
Qed.

(** C5: a response with at least one part whose text is not empty yields
    the trimmed texts of all its parts, those empty once trimmed left out,
    in the order of the candidates and then of the parts, joined by line
    feeds; absent fields contribute nothing. *)
Theorem extract_text_joins_parts (r : Response) :
  (exists t, In t (response_texts r) /\ t <> []) ->
  extract_text_from_response r = Some (joined_text r).
Proof.
  intros (t & Ht & Hne); rewrite extract_text_unfold; unfold joined_text.
  destruct (filter truthy (response_texts r)) as [|k kept] eqn:E.
  - exfalso; apply Hne; now apply (proj1 (filter_truthy_nil _) E).
  - now rewrite <- E, trimmed_kept.
Qed.

Lemma extract_text_joins_parts_witness :
  extract_text_from_response mixed_response
  = Some (lit "first" ++ [LF] ++ lit "second" ++ [LF] ++ lit "third").
Proof.
  rewrite (extract_text_joins_parts mixed_response).
  - reflexivity.
  - exists (lit "second"); split; [|discriminate].
    cbv; tauto.
Defined.

(** ** The local fallback poem *)

Section FallbackFacts.

Variable charref_sub : str -> str.

Lemma poem_topic_LF (p : str) :
  count_char LF (poem_topic p) <= count_char LF p.
Proof.
  unfold poem_topic.
  match goal with |- context [truthy ?t] => destruct (truthy t) end;
    [|cbv; lia].
  etransitivity; [apply count_char_strip|].
  etransitivity; [apply count_char_delete; discriminate|].
  etransitivity; [apply count_char_delete; discriminate|].
  apply count_char_delete; discriminate.
Qed.

Lemma poem_four_lines (topic : str) :
  line_count (join [LF] (firstn 4 (poem_lines topic)))
  = 4 + count_char LF topic.
Proof.
  rewrite line_count_LF; cbn [poem_lines firstn join].
  rewrite !count_char_app.
  generalize (count_char LF topic); intro k; cbv -[Nat.add]; lia.
Qed.

Lemma poem_six_lines (topic : str) :
  line_count (join [LF] (poem_lines topic)) = 6 + count_char LF topic.
Proof.
  rewrite line_count_LF; cbn [poem_lines join].
  rewrite !count_char_app.
  generalize (count_char LF topic); intro k; cbv -[Nat.add]; lia.
Qed.

(** The poem is the template cut to four entries for a prompt of at most
    three words and whole otherwise, and it has as many lines as entries
    plus the line feeds of the topic. *)
Lemma local_poem_fallback_shape (prompt : str) :
  let p := strip (html_unescape charref_sub prompt) in
  let n := if List.length (split p) <=? 3 then 4 else 6 in
  local_poem_fallback charref_sub prompt
  = join [LF] (firstn n (poem_lines (poem_topic p)))
  /\ line_count (local_poem_fallback charref_sub prompt)
     = n + count_char LF (poem_topic p).
Proof.
  intros p n; unfold local_poem_fallback; fold p; subst n.
  destruct (List.length (split p) <=? 3).
  - split; [reflexivity|apply poem_four_lines].
  - split; [reflexivity|rewrite <- poem_six_lines; reflexivity].
Qed.

Lemma local_poem_fallback_nonempty (prompt : str) :
  local_poem_fallback charref_sub prompt <> [].
Proof.
  unfold local_poem_fallback.
  match goal with |- context [if ?b then _ else _] => destruct b end;
    discriminate.
Qed.

End FallbackFacts.




(** C7, as the code has it: for the prompt about the GAN the topic is
    [the  a GAN], with the two blanks that stood around the deleted
    phrase, and the poem has 6 lines of which the first is
    [In careful lines I study the  a GAN,]. *)
Theorem local_poem_fallback_gan (charref_sub : str -> str) :
  let p := strip (html_unescape charref_sub gan_prompt) in
  let poem := local_poem_fallback charref_sub gan_prompt in
  poem_topic p = lit "the  a GAN"
  /\ line_count poem = 6
  /\ nth 0 (lines_of poem) [] = lit "In careful lines I study the  a GAN,"
  /\ poem = join [LF] (poem_lines (lit "the  a GAN")).
Proof. repeat split; vm_compute; reflexivity. Qed.

(** C7 as stated fails: the topic is not [the a GAN] and the first line is
    not [In careful lines I study the a GAN,]. *)
Lemma local_poem_fallback_gan_two_blanks :
  (forall sub,
     poem_topic (strip (html_unescape sub gan_prompt)) <> lit "the a GAN")
  /\ (forall sub,
        nth 0 (lines_of (local_poem_fallback sub gan_prompt)) []
        <> lit "In careful lines I study the a GAN,").
Proof. split; intro sub; vm_compute; discriminate. Qed.

(** ** The reply controller *)

Section ControllerFacts.

Variable charref_sub : str -> str.
Variable generate_content : list Event -> Request -> Outcome.
Variable prompt : str.

Local Notation "'try_block''" := (try_block generate_content prompt).
Local Notation "'run_plan''" := (run_plan generate_content prompt).

(** What the extractor returns as text holds a visible code point, so it
    is still text once trimmed. *)
Lemma extract_text_ink (r : Response) (t : str) :
  extract_text_from_response r = Some t -> t <> [] -> has_ink t = true.
Proof.
  rewrite extract_text_unfold.
  destruct (filter truthy (response_texts r)) as [|k kept]; [discriminate|].
  remember (filter (fun p => truthy (strip p)) (k :: kept)) as items eqn:E.
  intros [= <-].
  destruct items as [|x xs]; [intro H; exfalso; apply H; reflexivity|].
  intros _.
  assert (In x (x :: xs)) as Hx by now left.
  rewrite E in Hx; apply filter_In in Hx as [_ Hx].
  cbn [map]; apply has_ink_join_head.
  now rewrite has_ink_strip, <- strip_truthy_ink.
Qed.

Lemma extract_text_strip_nonempty (r : Response) (t : str) :
  extract_text_from_response r = Some t -> t <> [] -> strip t <> [].
Proof.
  intros He Hne; apply truthy_nonempty.
  rewrite strip_truthy_ink; now apply (extract_text_ink r).
Qed.

(** The two ways an attempt ends. *)
Lemma try_block_cases (mdl : str) (parap : str -> str) (tr : list Event) :
  let req := request_of prompt mdl parap in
  (yields_text (generate_content tr req) = true
   /\ exists response t,
        generate_content tr req = Returned response
        /\ extract_text_from_response response = Some t
        /\ t <> []
        /\ try_block' mdl parap tr
           = (Some (strip t, lit "gemini"), tr ++ [Generate req]))
  \/ (yields_text (generate_content tr req) = false
      /\ exists d,
           try_block' mdl parap tr = (None, tr ++ [Generate req; Sleep d])
           /\ (generate_content tr req = Raised -> d = 0.6%Q)).
Proof.
  intro req; unfold try_block; fold req.
  destruct (generate_content tr req) as [|response] eqn:G; cbn [yields_text].
  - right; split; [reflexivity|]; exists 0.6%Q.
    now rewrite <- app_assoc.
  - destruct (extract_text_from_response response) as [[|c t]|] eqn:E;
      cbn [opt_truthy truthy].
    + right; split; [reflexivity|].
      destruct (opt_eqb (first_finish_reason response) 2);
        eexists; rewrite <- app_assoc; (split; [reflexivity|discriminate]).
    + left; split; [reflexivity|].
      exists response, (c :: t); repeat split; [exact E|discriminate].
    + right; split; [reflexivity|].
      destruct (opt_eqb (first_finish_reason response) 2);
        eexists; rewrite <- app_assoc; (split; [reflexivity|discriminate]).
Qed.

Lemma run_plan_app (l1 l2 : list (str * (str -> str))) (tr : list Event) :
  run_plan' (l1 ++ l2) tr
  = match run_plan' l1 tr with
    | (Some r, tr') => (Some r, tr')
    | (None, tr') => run_plan' l2 tr'
    end.
Proof.
  revert tr; induction l1 as [|[mdl parap] l1 IH]; intro tr;
    cbn [app run_plan]; [reflexivity|].
  destruct (try_block' mdl parap tr) as [[r|] tr1]; [reflexivity|apply IH].
Qed.

(** *** The nested loops run the plan, cut to the budget *)

Lemma for_paraphrases_plan (mdl : str) (max_retries : Z)
  (todo : list (str -> str)) (st : State) :
  let k := budget max_retries st in
  let plan := map (fun parap => (mdl, parap)) todo in
  match for_paraphrases generate_content prompt mdl max_retries todo st with
  | Return r st' => run_plan' (firstn k plan) (trace st) = (Some r, trace st')
  | Done st' =>
      run_plan' (firstn k plan) (trace st) = (None, trace st')
      /\ attempt st' = (attempt st + Z.of_nat (List.length todo))%Z
      /\ List.length todo <= k
  | Broke st' =>
      run_plan' (firstn k plan) (trace st) = (None, trace st')
      /\ (attempt st' > max_retries)%Z
      /\ k < List.length todo
  end.
Proof.
  revert st; induction todo as [|parap rest IH]; intro st;
    cbn [for_paraphrases map List.length].
  - rewrite firstn_nil; cbn [run_plan]; repeat split; lia.
  - unfold budget.
    destruct (Z.gtb_spec (attempt st + 1) max_retries) as [Hover|Hin].
    + replace (Z.to_nat (max_retries - attempt st)) with 0 by lia.
      cbn [firstn run_plan trace attempt]; repeat split; lia.
    + replace (Z.to_nat (max_retries - attempt st))
        with (S (Z.to_nat (max_retries - (attempt st + 1)))) by lia.
      cbn [firstn run_plan].
      destruct (try_block' mdl parap (trace st)) as [[r|] tr1];
        [reflexivity|].
      specialize (IH {| attempt := attempt st + 1; trace := tr1 |}).
      unfold budget in IH; cbn [attempt trace] in IH.
      destruct (for_paraphrases generate_content prompt mdl max_retries rest
                  {| attempt := attempt st + 1; trace := tr1 |})
        as [st'|st'|r st']; [| |exact IH].
      * destruct IH as (H1 & H2 & H3); repeat split; [exact H1|lia|lia].
      * destruct IH as (H1 & H2 & H3); repeat split; [exact H1|lia|lia].
Qed.

Lemma for_models_plan (max_retries : Z) (models : list str) (st : State) :
  let k := budget max_retries st in
  let plan :=
    flat_map (fun mdl => map (fun parap => (mdl, parap)) paraphrases)
      models in
  run_plan' (firstn k plan) (trace st)
  = (fst (for_models generate_content prompt max_retries models st),
     trace (snd (for_models generate_content prompt max_retries models st))).
Proof.
  revert st; induction models as [|mdl rest IH]; intro st;
    cbn [flat_map for_models].
  - rewrite firstn_nil; reflexivity.
  - rewrite firstn_app, run_plan_app, length_map.
    pose proof (for_paraphrases_plan mdl max_retries paraphrases st) as H.
    cbv zeta in H.
    destruct (for_paraphrases generate_content prompt mdl max_retries
                paraphrases st) as [st'|st'|r st'].
    + destruct H as (H1 & H2 & H3); rewrite H1.
      replace (budget max_retries st - List.length paraphrases)
        with (budget max_retries st') by (unfold budget in *; lia).
      apply IH.
    + destruct H as (H1 & H2 & H3); rewrite H1.
      replace (budget max_retries st - List.length paraphrases)
        with (budget max_retries st') by (unfold budget in *; lia).
      apply IH.
    + rewrite H; reflexivity.
Qed.

Lemma model_attempts_plan (model_name : str) :
  flat_map (fun mdl => map (fun parap => (mdl, parap)) paraphrases)
    (model_attempts model_name)
  = attempt_plan model_name.
Proof.
  unfold model_attempts, attempt_plan.
  destruct (contains (lit "flash") model_name); reflexivity.
Qed.

(** The controller is the run of the plan cut to [max_retries] attempts. *)
Lemma kelly_reply_plan_reply (model_name : str) (max_retries : Z) :
  kelly_reply charref_sub generate_content prompt model_name max_retries
  = plan_reply charref_sub generate_content prompt model_name max_retries.
Proof.
  unfold kelly_reply, plan_reply.
  pose proof (for_models_plan max_retries (model_attempts model_name)
                {| attempt := 0; trace := [] |}) as H.
  cbv zeta in H; unfold budget in H; cbn [attempt trace] in H.
  rewrite Z.sub_0_r, model_attempts_plan in H; rewrite H.
  destruct (for_models generate_content prompt max_retries
              (model_attempts model_name) {| attempt := 0; trace := [] |})
    as [[r|] st']; reflexivity.
Qed.

End ControllerFacts.

(** *** Runs of a plan *)

Section PlanFacts.

Variable generate_content : list Event -> Request -> Outcome.
Variable prompt : str.

Local Notation "'try_block''" := (try_block generate_content prompt).
Local Notation "'run_plan''" := (run_plan generate_content prompt).

Lemma requests_app (a b : list Event) :
  requests (a ++ b) = requests a ++ requests b.
Proof. apply flat_map_app. Qed.

Lemma invocations_requests (tr : list Event) :
  invocations tr = List.length (requests tr).
Proof.
  unfold invocations, requests.
  induction tr as [|[req|d] tr IH]; cbn [filter flat_map is_generate app];
    [reflexivity| |exact IH].
  cbn [List.length]; now rewrite IH.
Qed.

(** The calls of a run are the requests of the first attempts of the plan,
    in order, and of all of them when the run ends without a reply. *)
Lemma run_plan_requests (plan : list (str * (str -> str)))
  (tr : list Event) :
  exists n,
    n <= List.length plan
    /\ requests (snd (run_plan' plan tr))
       = requests tr ++ map (request_at prompt) (firstn n plan)
    /\ (fst (run_plan' plan tr) = None -> n = List.length plan).
Proof.
  revert tr; induction plan as [|[mdl parap] rest IH]; intro tr;
    cbn [run_plan].
  - exists 0; cbn; rewrite app_nil_r; auto.
  - destruct (try_block_cases generate_content prompt mdl parap tr)
      as [(_ & response & t & _ & _ & _ & ->)|(_ & d & -> & _)].
    + exists 1; cbn [snd fst firstn map List.length].
      rewrite requests_app; repeat split; [lia|discriminate].
    + destruct (IH (tr ++ [Generate (request_of prompt mdl parap); Sleep d]))
        as (n & Hn & Hreq & Hall).
      exists (S n); cbn [firstn map List.length].
      rewrite Hreq, requests_app, <- app_assoc.
      repeat split; [lia|]; intro H; now rewrite (Hall H).
Qed.



(** A call of the run that yields text is its last event, and the reply
    is the trimmed text of that call. *)
Lemma run_plan_first_success (plan : list (str * (str -> str)))
  (tr : list Event) :
  exists ext,
    snd (run_plan' plan tr) = tr ++ ext
    /\ forall e1 req e2,
         ext = e1 ++ Generate req :: e2 ->
         yields_text (generate_content (tr ++ e1) req) = true ->
         e2 = []
         /\ exists response t,
              generate_content (tr ++ e1) req = Returned response
              /\ extract_text_from_response response = Some t
              /\ fst (run_plan' plan tr) = Some (strip t, lit "gemini").
Proof.
  revert tr; induction plan as [|[mdl parap] rest IH]; intro tr;
    cbn [run_plan].
  - exists []; rewrite app_nil_r; split; [reflexivity|].
    intros [|e e1] req e2 H; discriminate H.
  - destruct (try_block_cases generate_content prompt mdl parap tr)
      as [(_ & response & t & G & E & _ & ->)|(Hno & d & -> & _)].
    + eexists; split; [reflexivity|].
      intros [|e [|e' e1]] req e2 H; try discriminate H.
      injection H as <- <-; intros _; rewrite app_nil_r.
      split; [reflexivity|]; now exists response, t.
    + destruct (IH (tr ++ [Generate (request_of prompt mdl parap); Sleep d]))
        as (ext & Hext & Hlast).
      exists ([Generate (request_of prompt mdl parap); Sleep d] ++ ext).
      split; [now rewrite Hext, <- app_assoc|].
      intros [|e [|e' e1]] req e2 H Hyes.
      * injection H as <- _; rewrite app_nil_r in Hyes; congruence.
      * discriminate H.
      * injection H as <- <- H.
        replace (tr ++ Generate (request_of prompt mdl parap) :: Sleep d :: e1)
          with ((tr ++ [Generate (request_of prompt mdl parap); Sleep d])
                ++ e1) in * by now rewrite <- app_assoc.
        exact (Hlast e1 req e2 H Hyes).
Qed.

(** A reply of the run is text, it is tagged as remote, and the call that
    gave it is the last event. *)
Lemma run_plan_reply (plan : list (str * (str -> str))) (tr : list Event)
  (r : Reply) :
  fst (run_plan' plan tr) = Some r ->
  fst r <> []
  /\ snd r = lit "gemini"
  /\ exists before req,
       snd (run_plan' plan tr) = before ++ [Generate req]
       /\ yields_text (generate_content before req) = true.
Proof.
  revert tr; induction plan as [|[mdl parap] rest IH]; intro tr;
    cbn [run_plan]; [discriminate|].
  destruct (try_block_cases generate_content prompt mdl parap tr)
    as [(Hyes & response & t & G & E & Hne & ->)|(_ & d & -> & _)];
    [|apply IH].
  intros [= <-]; cbn [fst snd]; repeat split.
  - now apply (extract_text_strip_nonempty response).
  - now exists tr, (request_of prompt mdl parap).
Qed.

End PlanFacts.

Lemma attempt_plan_length (model_name : str) :
  List.length (attempt_plan model_name) = 3
  \/ List.length (attempt_plan model_name) = 6.
Proof.
  unfold attempt_plan; destruct (contains (lit "flash") model_name); auto.
Qed.

(** ** The claims about the reply controller *)



(** C3: a remote call of the controller that yields text is the last
    thing the controller does, and the reply is the trimmed text of that
    call tagged as remote; a reply tagged as remote comes from such a
    call. *)
Theorem kelly_reply_first_success (charref_sub : str -> str)
  (generate_content : list Event -> Request -> Outcome)
  (prompt model_name : str) (max_retries : Z) :
  let res :=
    kelly_reply charref_sub generate_content prompt model_name max_retries in
  (forall before req after,
     snd res = before ++ Generate req :: after ->
     yields_text (generate_content before req) = true ->
     after = []
     /\ exists response t,
          generate_content before req = Returned response
          /\ extract_text_from_response response = Some t
          /\ fst res = (strip t, lit "gemini"))
  /\ (snd (fst res) = lit "gemini" ->
      exists before req,
        snd res = before ++ [Generate req]
        /\ yields_text (generate_content before req) = true).
Proof.
  intro res; subst res.
  rewrite kelly_reply_plan_reply; unfold plan_reply.
  set (plan := firstn (Z.to_nat max_retries) (attempt_plan model_name)).
  destruct (run_plan_first_success generate_content prompt plan [])
    as (ext & Hext & Hlast).
  pose proof (run_plan_reply generate_content prompt plan []) as Hreply.
  destruct (run_plan generate_content prompt plan []) as [[r|] tr];
    cbn [fst snd app] in *; subst ext; split.
  - intros before req after Htr Hyes.
    destruct (Hlast before req after Htr Hyes)
      as (Hafter & response & t & G & E & [= ->]).
    split; [exact Hafter|]; now exists response, t.
  - intros _; destruct (Hreply r eq_refl) as (_ & _ & H); exact H.
  - intros before req after Htr Hyes.
    destruct (Hlast before req after Htr Hyes)
      as (_ & response & t & _ & _ & H); discriminate H.
  - intro H; vm_compute in H; discriminate H.
Qed.

Lemma kelly_reply_first_success_witness :
  let res := kelly_reply no_charref answers_second (lit "hi") DEFAULT_MODEL 3 in
  invocations (snd res) = 2
  /\ fst res
     = (lit "first" ++ [LF] ++ lit "second" ++ [LF] ++ lit "third",
        lit "gemini").
Proof.
  split; [reflexivity|].
  destruct (kelly_reply_first_success no_charref answers_second (lit "hi")
              DEFAULT_MODEL 3) as [Hlast _].
  destruct (Hlast [Generate (request_of (lit "hi") DEFAULT_MODEL (fun q => q));
                   Sleep 0.6%Q]
              (request_of (lit "hi") DEFAULT_MODEL
                 (fun q =>
                    q ++ lit " Please explain step by step and include practical suggestions."))
              [] eq_refl eq_refl)
    as (_ & response & t & G & E & Hres).
  injection G as <-; vm_compute in E; injection E as <-.
  exact Hres.
Defined.

(** C8: the model list is the preferred model alone when its name holds
    the marker [flash] and the preferred model followed by the fast model
    otherwise; the paraphrases are the prompt itself, the prompt followed
    by the step-by-step instruction and the prompt after the scientific
    opening; the plan pairs every model with every paraphrase, model by
    model; and the controller is the run of the plan cut to [max_retries]
    attempts: its calls are the requests of the leading attempts of the
    plan, and of all of those within the budget when it falls back. *)
Theorem kelly_reply_follows_plan (charref_sub : str -> str)
  (generate_content : list Event -> Request -> Outcome)
  (prompt model_name : str) (max_retries : Z) :
  let res :=
    kelly_reply charref_sub generate_content prompt model_name max_retries in
  model_attempts model_name
  = (if contains (lit "flash") model_name then [model_name]
     else [model_name; FAST_MODEL])
  /\ map (fun parap => parap prompt) paraphrases
     = [ prompt;
         prompt
         ++ lit " Please explain step by step and include practical suggestions.";
         lit "In scientific terms, describe the stages of: " ++ prompt ]
  /\ attempt_plan model_name
     = flat_map (fun mdl => map (fun parap => (mdl, parap)) paraphrases)
         (model_attempts model_name)
  /\ res = plan_reply charref_sub generate_content prompt model_name max_retries
  /\ exists n,
       n <= Z.to_nat max_retries
       /\ requests (snd res)
          = map (request_at prompt) (firstn n (attempt_plan model_name))
       /\ (snd (fst res) = lit "fallback" ->
           n = Nat.min (Z.to_nat max_retries)
                 (List.length (attempt_plan model_name))).
Proof.
  intro res; subst res.
  split; [unfold model_attempts;
          destruct (contains (lit "flash") model_name); reflexivity|].
  split; [reflexivity|].
  split; [symmetry; apply model_attempts_plan|].
  split; [apply kelly_reply_plan_reply|].
  rewrite kelly_reply_plan_reply; unfold plan_reply.
  set (plan := firstn (Z.to_nat max_retries) (attempt_plan model_name)).
  assert (List.length plan
          = Nat.min (Z.to_nat max_retries)
              (List.length (attempt_plan model_name))) as Hlen
    by apply length_firstn.
  destruct (run_plan_requests generate_content prompt plan [])
    as (n & Hn & Hreq & Hall).
  change (requests []) with (@nil Request) in Hreq.
  pose proof (run_plan_reply generate_content prompt plan []) as Hreply.
  assert (firstn n plan = firstn n (attempt_plan model_name)) as Hcut.
  { unfold plan; rewrite firstn_firstn; f_equal; lia. }
  exists n; split; [lia|].
  destruct (run_plan generate_content prompt plan []) as [[r|] tr];
    cbn [fst snd app] in *.
  - split; [now rewrite Hreq, Hcut|].
    destruct (Hreply r eq_refl) as (_ & -> & _).
    intro H; vm_compute in H; discriminate H.
  - split; [now rewrite Hreq, Hcut|].
    intros _; rewrite (Hall eq_refl); exact Hlen.
Qed.

(** C10: the text of every reply is not empty.  A reply is either tagged
    as remote, and then it is the trimmed text of a call that yielded
    text, or tagged as fallback, and then it is the local poem. *)
Theorem kelly_reply_text_nonempty (charref_sub : str -> str)
  (generate_content : list Event -> Request -> Outcome)
  (prompt model_name : str) (max_retries : Z) :
  let res :=
    kelly_reply charref_sub generate_content prompt model_name max_retries in
  fst (fst res) <> []
  /\ (snd (fst res) = lit "gemini"
      \/ (snd (fst res) = lit "fallback"
          /\ fst (fst res) = local_poem_fallback charref_sub prompt)).
Proof.
  intro res; subst res.
  rewrite kelly_reply_plan_reply; unfold plan_reply.
  set (plan := firstn (Z.to_nat max_retries) (attempt_plan model_name)).
  pose proof (run_plan_reply generate_content prompt plan []) as Hreply.
  destruct (run_plan generate_content prompt plan []) as [[r|] tr];
    cbn [fst snd] in *.
  - destruct (Hreply r eq_refl) as (Hne & Htag & _); auto.
  - split; [apply local_poem_fallback_nonempty|right; auto].
Qed.

(** ** The text of a request *)

Section ReplaceFacts.

Lemma startswith_app (p rest : str) : startswith (p ++ rest) p = true.
Proof.
  induction p as [|a p IH]; [destruct rest; reflexivity|].
  cbn [app startswith]; now rewrite N.eqb_refl, IH.
Qed.

Lemma startswith_split (s p : str) :
  startswith s p = true -> s = p ++ skipn (List.length p) s.
Proof.
  revert s; induction p as [|a p IH]; intros s H; [reflexivity|].
  destruct s as [|b s]; [discriminate|].
  cbn [startswith] in H; apply andb_prop in H as [Hab Hrest].
  apply N.eqb_eq in Hab as ->.
  cbn [List.length skipn app]; now rewrite <- (IH s Hrest).
Qed.

(** Passing over [k] code points is dropping them. *)
Lemma replace_go_skip (old new : str) (k : nat) (s : str) :
  replace_go old new k s = replace_go old new 0 (skipn k s).
Proof.
  revert k; induction s as [|c s IH]; intros [|k]; try reflexivity.
  cbn [replace_go skipn]; apply IH.
Qed.

Lemma replace_go_hit (a : char) (old new post : str) :
  replace_go (a :: old) new 0 ((a :: old) ++ post)
  = new ++ replace_go (a :: old) new 0 post.
Proof.
  cbn [app replace_go].
  change (a :: old ++ post) with ((a :: old) ++ post).
  rewrite startswith_app, replace_go_skip.
  replace (List.length (a :: old) - 1) with (List.length old)
    by (cbn [List.length]; lia).
  now rewrite skipn_app, skipn_all, Nat.sub_diag.
Qed.

Lemma replace_go_absent_before (old new pre rest : str) :
  absent_before old (pre ++ rest) (List.length pre) ->
  replace_go old new 0 (pre ++ rest) = pre ++ replace_go old new 0 rest.
Proof.
  induction pre as [|c pre IH]; intro H; [reflexivity|].
  cbn [app replace_go].
  rewrite (H 0 (Nat.lt_0_succ _) : startswith (c :: pre ++ rest) old = false).
  f_equal; apply IH.
  intros i Hi; apply (H (S i)); cbn [List.length]; lia.
Qed.

Lemma replace_go_absent (old new s : str) :
  contains old s = false -> replace_go old new 0 s = s.
Proof.
  induction s as [|c s IH]; intro H; [reflexivity|].
  cbn [contains] in H; apply orb_false_elim in H as [H1 H2].
  cbn [replace_go]; rewrite H1; f_equal; now apply IH.
Qed.

(** A phrase that occurs once is replaced there and nowhere else. *)
Lemma replace_single (old new pre post : str) :
  old <> [] ->
  absent_before old (pre ++ old ++ post) (List.length pre) ->
  contains old post = false ->
  replace (pre ++ old ++ post) old new = pre ++ new ++ post.
Proof.
  destruct old as [|a old]; [congruence|intros _ Hpre Hpost].
  unfold replace.
  rewrite (replace_go_absent_before _ _ _ _ Hpre), replace_go_hit.
  now rewrite (replace_go_absent _ _ _ Hpost).
Qed.

Lemma replace_go_same (a : char) (old : str) (n : nat) :
  forall s,
    List.length s <= n -> replace_go (a :: old) (a :: old) 0 s = s.
Proof.
  induction n as [|n IH]; intros [|c s] Hlen; try reflexivity;
    cbn [List.length] in Hlen; [lia|].
  cbn [replace_go].
  destruct (startswith (c :: s) (a :: old)) eqn:E.
  - rewrite replace_go_skip.
    replace (List.length (a :: old) - 1) with (List.length old)
      by (cbn [List.length]; lia).
    rewrite IH by (rewrite length_skipn; lia).
    apply startswith_split in E; cbn [List.length skipn] in E.
    now rewrite <- E.
  - f_equal; apply IH; lia.
Qed.

(** Replacing a phrase by itself changes nothing. *)
Lemma replace_same (s old : str) : replace s old old = s.
Proof.
  destruct old as [|a old]; unfold replace.
  - cbn [app]; induction s as [|c s IH]; [reflexivity|].
    cbn [flat_map app]; now rewrite IH.
  - now apply (replace_go_same a old (List.length s)).
Qed.

End ReplaceFacts.

Section RequestFacts.

Lemma absent_beforeb_sound (old s : str) (n : nat) :
  absent_beforeb old s n = true -> absent_before old s n.
Proof.
  unfold absent_beforeb, absent_before; intros H i Hi.
  rewrite forallb_forall in H.
  specialize (H i); rewrite in_seq in H.
  apply negb_true_iff, H; lia.
Qed.

Lemma base_prompt_split (prompt : str) :
  base_prompt prompt = preamble ++ prompt ++ closing.
Proof. unfold base_prompt, preamble, closing; now rewrite <- !app_assoc. Qed.

(** The generation parameters of every request. *)
Lemma request_of_config (prompt mdl : str) (parap : str -> str) :
  generation_config (request_of prompt mdl parap)
  = {| temperature := 0.45%Q; max_output_tokens := 400%Z; top_p := 0.9%Q |}.
Proof. reflexivity. Qed.

(** X2: the first paraphrase sends the composed text as it is. *)
Lemma request_of_identity (prompt mdl : str) :
  contents (request_of prompt mdl (fun q => q)) = [base_prompt prompt].
Proof. unfold request_of; cbn [contents]; now rewrite replace_same. Qed.

(** X1: when the prompt stands in the composed text only where the
    template puts it, the request is the persona text followed by the paraphrased
    prompt. *)
Lemma request_of_single_occurrence (prompt mdl : str) (parap : str -> str) :
  prompt <> [] ->
  absent_before prompt (base_prompt prompt) (List.length preamble) ->
  contains prompt closing = false ->
  contents (request_of prompt mdl parap) = [base_prompt (parap prompt)].
Proof.
  intros Hne Hpre Hpost; unfold request_of; cbn [contents].
  rewrite base_prompt_split in *.
  now rewrite (replace_single _ _ _ _ Hne Hpre Hpost), <- base_prompt_split.
Qed.

Lemma request_of_single_occurrence_gan :
  contents (request_of gan_prompt DEFAULT_MODEL step_by_step)
  = [base_prompt (step_by_step gan_prompt)].
Proof.
  apply request_of_single_occurrence.
  - discriminate.
  - apply absent_beforeb_sound; vm_compute; reflexivity.
  - vm_compute; reflexivity.
Defined.

End RequestFacts.

(** C9 at the prompt [poem]: the word stands in the persona text too, and
    the second attempt replaces it there as well, so the text sent is not
    the persona text followed by the paraphrased prompt.  The generation
    parameters are the fixed ones. *)
Theorem request_of_poem_prompt :
  let req := request_of poem_prompt DEFAULT_MODEL step_by_step in
  let res := kelly_reply no_charref always_raises poem_prompt DEFAULT_MODEL 3 in
  nth_error (requests (snd res)) 1 = Some req
  /\ contents req = [poem_request_text]
  /\ poem_request_text <> base_prompt (step_by_step poem_prompt)
  /\ generation_config req
     = {| temperature := 0.45%Q; max_output_tokens := 400%Z;
          top_p := 0.9%Q |}.
Proof.
  split; [vm_compute; reflexivity|].
  split; [vm_compute; reflexivity|].
  split; [vm_compute; discriminate|reflexivity].
Qed.

(** * Further properties of the code *)

(** ** Trimming *)

Section StripFacts.

Lemma lstrip_length (s : str) : List.length (lstrip s) <= List.length s.
Proof.
  induction s as [|c s IH]; [reflexivity|].
  cbn [lstrip]; destruct (isspace c); cbn [List.length]; lia.
Qed.

Lemma lstrip_headed (s : str) : headed s -> lstrip s = s.
Proof.
  destruct s as [|c s]; [intros []|]; cbn [headed lstrip]; now intros ->.
Qed.

Lemma lstrip_nil_or_headed (s : str) : lstrip s = [] \/ headed (lstrip s).
Proof.
  induction s as [|c s IH]; [now left|].
  cbn [lstrip]; destruct (isspace c) eqn:E; [exact IH|now right].
Qed.

Lemma lstrip_fixed_headed (s : str) : lstrip s = s -> s <> [] -> headed s.
Proof.
  destruct s as [|c s]; [congruence|]; intros H _.
  cbn [headed]; cbn [lstrip] in H.
  destruct (isspace c); [|reflexivity].
  pose proof (lstrip_length s) as L; rewrite H in L; cbn [List.length] in L.
  lia.
Qed.

Lemma lstrip_idem (s : str) : lstrip (lstrip s) = lstrip s.
Proof.
  destruct (lstrip_nil_or_headed s) as [->|H];
    [reflexivity|now apply lstrip_headed].
Qed.

Lemma headed_app (s t : str) : headed s -> headed (s ++ t).
Proof. destruct s; [intros []|exact (fun H => H)]. Qed.

Lemma lstrip_blank (a s : str) : blank a = true -> lstrip (a ++ s) = lstrip s.
Proof.
  induction a as [|c a IH]; [reflexivity|].
  cbn [blank forallb app lstrip]; intro H; apply andb_prop in H as [-> H].
  now apply IH.
Qed.

Lemma blank_lstrip (s : str) : blank s = true -> lstrip s = [].
Proof.
  intro H; rewrite <- (app_nil_r s); now rewrite lstrip_blank.
Qed.

Lemma blank_rev (s : str) : blank (rev s) = blank s.
Proof.
  unfold blank; induction s as [|c s IH]; [reflexivity|].
  cbn [rev forallb]; rewrite forallb_app, IH; cbn [forallb].
  rewrite andb_true_r; apply andb_comm.
Qed.

Lemma blank_ink (s : str) : blank s = negb (has_ink s).
Proof.
  unfold blank, has_ink; induction s as [|c s IH]; [reflexivity|].
  cbn [forallb existsb]; rewrite IH, negb_orb, negb_involutive; reflexivity.
Qed.

Lemma lstrip_ink_app (s t : str) :
  has_ink s = true -> lstrip (s ++ t) = lstrip s ++ t.
Proof.
  unfold has_ink; induction s as [|c s IH]; [discriminate|].
  cbn [existsb app lstrip]; destruct (isspace c); cbn [negb orb];
    [exact IH|reflexivity].
Qed.

(** What [lstrip] removes is white space. *)
Lemma lstrip_split (s : str) :
  exists ws, s = ws ++ lstrip s /\ blank ws = true.
Proof.
  induction s as [|c s (ws & E & B)]; [now exists []|].
  cbn [lstrip]; destruct (isspace c) eqn:C.
  - exists (c :: ws); cbn [app blank forallb]; rewrite C; fold (blank ws).
    now rewrite <- E.
  - now exists [].
Qed.

Lemma lstrip_fixed_prefix (a b : str) :
  lstrip (a ++ b) = a ++ b -> lstrip a = a.
Proof.
  destruct a as [|c a]; [reflexivity|].
  cbn [app lstrip]; destruct (isspace c); [|reflexivity].
  intro H; pose proof (lstrip_length (a ++ b)) as L.
  rewrite H in L; cbn [List.length] in L; lia.
Qed.

Lemma rstrip_split (s : str) :
  exists ws, s = rstrip s ++ ws /\ blank ws = true.
Proof.
  destruct (lstrip_split (rev s)) as (ws & E & B).
  exists (rev ws); split; [|now rewrite blank_rev].
  unfold rstrip; rewrite <- rev_app_distr, <- E; symmetry; apply rev_involutive.
Qed.

Lemma rstrip_blank (s b : str) : blank b = true -> rstrip (s ++ b) = rstrip s.
Proof.
  intro B; unfold rstrip; rewrite rev_app_distr, lstrip_blank;
    [reflexivity|now rewrite blank_rev].
Qed.

(** A trimmed text has no white space at its ends. *)
Lemma strip_ends (s : str) :
  lstrip (strip s) = strip s /\ lstrip (rev (strip s)) = rev (strip s).
Proof.
  split.
  - destruct (rstrip_split (lstrip s)) as (ws & E & _); fold (strip s) in E.
    apply (lstrip_fixed_prefix _ ws); rewrite <- E; apply lstrip_idem.
  - unfold strip, rstrip; rewrite rev_involutive; apply lstrip_idem.
Qed.

Lemma ends_strip (s : str) :
  lstrip s = s -> lstrip (rev s) = rev s -> strip s = s.
Proof.
  intros H1 H2; unfold strip, rstrip; rewrite H1, H2; apply rev_involutive.
Qed.

Lemma strip_idem (s : str) : strip (strip s) = strip s.
Proof. destruct (strip_ends s); now apply ends_strip. Qed.

Lemma strip_headed (s : str) :
  strip s <> [] -> headed (strip s) /\ headed (rev (strip s)).
Proof.
  intro H; destruct (strip_ends s) as [H1 H2]; split.
  - now apply lstrip_fixed_headed.
  - apply lstrip_fixed_headed; [exact H2|].
    intro E; apply H; rewrite <- (rev_involutive (strip s)), E; reflexivity.
Qed.

(** White space around a text does not change what trimming leaves. *)
Lemma strip_padding (a s b : str) :
  blank a = true -> blank b = true -> strip (a ++ s ++ b) = strip s.
Proof.
  intros A B; unfold strip; rewrite lstrip_blank by exact A.
  destruct (has_ink s) eqn:I.
  - rewrite lstrip_ink_app by exact I; now apply rstrip_blank.
  - assert (blank s = true) as S by (rewrite blank_ink, I; reflexivity).
    rewrite lstrip_blank, (blank_lstrip b), (blank_lstrip s); auto.
Qed.

(** A join of pieces that start and end with visible code points starts
    and ends with visible code points. *)
Lemma join_headed (sep : str) (l : list str) :
  l <> [] ->
  (forall x, In x l -> headed x /\ headed (rev x)) ->
  headed (join sep l) /\ headed (rev (join sep l)).
Proof.
  induction l as [|x [|y rest] IH]; [congruence| |]; intros _ H.
  - apply H; now left.
  - change (join sep (x :: y :: rest)) with (x ++ sep ++ join sep (y :: rest)).
    destruct IH as [_ IH];
      [discriminate|intros z Hz; apply H; now right|].
    split; [apply headed_app, H; now left|].
    rewrite !rev_app_distr, <- app_assoc; now apply headed_app.
Qed.

End StripFacts.

(** X3: whatever the extractor returns has no white space at its ends:
    trimming it again changes nothing, and when it is not empty it starts
    and ends with a visible code point.  The [strip] the controller
    applies to it before replying is therefore without effect. *)
Theorem extract_text_trimmed (r : Response) (t : str) :
  extract_text_from_response r = Some t ->
  strip t = t /\ (t <> [] -> headed t /\ headed (rev t)).
Proof.
  rewrite extract_text_unfold.
  destruct (filter truthy (response_texts r)) as [|k kept]; [discriminate|].
  remember (filter (fun p => truthy (strip p)) (k :: kept)) as items eqn:E.
  intros [= <-].
  destruct items as [|x xs]; [split; [reflexivity|intro H; now elim H]|].
  assert (headed (join [LF] (map strip (x :: xs)))
          /\ headed (rev (join [LF] (map strip (x :: xs))))) as [H1 H2].
  { apply join_headed; [discriminate|].
    intros y Hy; apply in_map_iff in Hy as (p & <- & Hp).
    rewrite E in Hp; apply filter_In in Hp as [_ Hp].
    apply strip_headed, truthy_nonempty, Hp. }
  split; [|now intros _].
  apply ends_strip; now apply lstrip_headed.
Qed.

Lemma extract_text_trimmed_witness :
  strip (lit "first" ++ [LF] ++ lit "second" ++ [LF] ++ lit "third")
  = lit "first" ++ [LF] ++ lit "second" ++ [LF] ++ lit "third".
Proof.
  apply (extract_text_trimmed mixed_response); reflexivity.
Defined.

(** ** More on the local fallback poem *)

Section PoemFacts.

Variable charref_sub : str -> str.

Lemma blank_no_amp (s : str) : blank s = true -> has_amp s = false.
Proof.
  unfold blank, has_amp; induction s as [|c s IH]; [reflexivity|].
  cbn [forallb existsb]; intro H; apply andb_prop in H as [C H].
  rewrite (IH H), orb_false_r.
  destruct (N.eqb_spec c AMP) as [->|]; [discriminate C|reflexivity].
Qed.

Lemma has_amp_app (s t : str) : has_amp (s ++ t) = has_amp s || has_amp t.
Proof. apply existsb_app. Qed.

Lemma html_unescape_plain (s : str) :
  has_amp s = false -> html_unescape charref_sub s = s.
Proof. unfold html_unescape, has_amp; now intros ->. Qed.


End PoemFacts.


(** X5: a prompt made of white space only, the empty prompt included,
    gets the four-line poem about [this topic]. *)
Theorem local_poem_fallback_blank (charref_sub : str -> str) (prompt : str) :
  blank prompt = true ->
  local_poem_fallback charref_sub prompt = topicless_poem.
Proof.
  intro B; unfold local_poem_fallback.
  rewrite (html_unescape_plain charref_sub prompt (blank_no_amp prompt B)).
  assert (strip prompt = []) as ->
    by (unfold strip; now rewrite (blank_lstrip prompt B)).
  reflexivity.
Qed.

Lemma local_poem_fallback_blank_witness :
  local_poem_fallback no_charref (lit " " ++ [LF; 9%N]) = topicless_poem.
Proof. apply local_poem_fallback_blank; reflexivity. Defined.

(** X6: white space before and after a prompt without ampersand does not
    change the poem. *)
Theorem local_poem_fallback_padding (charref_sub : str -> str)
  (before prompt after : str) :
  has_amp prompt = false ->
  blank before = true -> blank after = true ->
  local_poem_fallback charref_sub (before ++ prompt ++ after)
  = local_poem_fallback charref_sub prompt.
Proof.
  intros P A B; unfold local_poem_fallback.
  rewrite !html_unescape_plain;
    [now rewrite strip_padding|exact P|].
  now rewrite !has_amp_app, P, (blank_no_amp _ A), (blank_no_amp _ B).
Qed.

Lemma local_poem_fallback_padding_witness :
  local_poem_fallback no_charref ([LF] ++ gan_prompt ++ lit "  ")
  = local_poem_fallback no_charref gan_prompt.
Proof. apply local_poem_fallback_padding; reflexivity. Defined.

(** ** More on the reply controller *)

Section TraceFacts.

Variable generate_content : list Event -> Request -> Outcome.
Variable prompt : str.

Local Notation "'try_block''" := (try_block generate_content prompt).
Local Notation "'run_plan''" := (run_plan generate_content prompt).

Lemma pause_after_values (o : Outcome) :
  pause_after o = 0.4%Q \/ pause_after o = 0.6%Q.
Proof.
  destruct o as [|response]; cbn [pause_after]; [now right|].
  destruct (opt_eqb (first_finish_reason response) 2); auto.
Qed.

(** An attempt without text is the call and the pause that fits its
    outcome. *)
Lemma try_block_pause (mdl : str) (parap : str -> str) (tr : list Event) :
  let req := request_of prompt mdl parap in
  yields_text (generate_content tr req) = false ->
  try_block' mdl parap tr
  = (None,
     tr ++ [Generate req; Sleep (pause_after (generate_content tr req))]).
Proof.
  intro req; unfold try_block; fold req.
  destruct (generate_content tr req) as [|response];
    cbn [yields_text pause_after].
  - intros _; now rewrite <- app_assoc.
  - destruct (extract_text_from_response response) as [[|c t]|];
      cbn [opt_truthy truthy]; try discriminate; intros _;
      destruct (opt_eqb (first_finish_reason response) 2);
      now rewrite <- app_assoc.
Qed.

Lemma run_plan_shape (plan : list (str * (str -> str))) (tr : list Event) :
  exists ext,
    snd (run_plan' plan tr) = tr ++ ext
    /\ run_shape (is_some (fst (run_plan' plan tr))) ext.
Proof.
  revert tr; induction plan as [|[mdl parap] rest IH]; intro tr;
    cbn [run_plan].
  - exists []; rewrite app_nil_r; split; [reflexivity|constructor].
  - destruct (yields_text
                (generate_content tr (request_of prompt mdl parap))) eqn:Y.
    + destruct (try_block_cases generate_content prompt mdl parap tr)
        as [(_ & response & t & _ & _ & _ & ->)|(N & _)]; [|congruence].
      eexists; split; [reflexivity|constructor].
    + rewrite (try_block_pause mdl parap tr Y).
      destruct (IH (tr ++ [Generate (request_of prompt mdl parap);
                           Sleep (pause_after
                                    (generate_content tr
                                       (request_of prompt mdl parap)))]))
        as (ext & -> & Hshape).
      eexists; split; [now rewrite <- app_assoc|].
      cbn [app]; constructor; [apply pause_after_values|exact Hshape].
Qed.

(** Every call of a run that yields no text is followed at once by the
    pause that fits its outcome. *)
Lemma run_plan_pauses (plan : list (str * (str -> str))) (tr : list Event) :
  exists ext,
    snd (run_plan' plan tr) = tr ++ ext
    /\ forall e1 req e2,
         ext = e1 ++ Generate req :: e2 ->
         yields_text (generate_content (tr ++ e1) req) = false ->
         exists rest,
           e2 = Sleep (pause_after (generate_content (tr ++ e1) req)) :: rest.
Proof.
  revert tr; induction plan as [|[mdl parap] rest IH]; intro tr;
    cbn [run_plan].
  - exists []; rewrite app_nil_r; split; [reflexivity|].
    intros [|e e1] req e2 H; discriminate H.
  - destruct (yields_text
                (generate_content tr (request_of prompt mdl parap))) eqn:Y.
    + destruct (try_block_cases generate_content prompt mdl parap tr)
        as [(_ & response & t & _ & _ & _ & ->)|(N & _)]; [|congruence].
      eexists; split; [reflexivity|].
      intros [|e [|e' e1]] req e2 H; try discriminate H.
      injection H as <- <-; rewrite app_nil_r; congruence.
    + rewrite (try_block_pause mdl parap tr Y).
      set (req0 := request_of prompt mdl parap) in *.
      set (d := pause_after (generate_content tr req0)).
      destruct (IH (tr ++ [Generate req0; Sleep d])) as (ext & -> & Hnext).
      exists ([Generate req0; Sleep d] ++ ext).
      split; [now rewrite <- app_assoc|].
      intros [|e [|e' e1]] req e2 H Hno.
      * injection H as <- <-; rewrite app_nil_r; now exists ext.
      * discriminate H.
      * injection H as <- <- H.
        replace (tr ++ Generate req0 :: Sleep d :: e1)
          with ((tr ++ [Generate req0; Sleep d]) ++ e1) in *
          by now rewrite <- app_assoc.
        exact (Hnext e1 req e2 H Hno).
Qed.

(** The first call of a run is the first attempt of the plan. *)
Lemma run_plan_first_request (a : str * (str -> str))
  (plan : list (str * (str -> str))) :
  hd_error (requests (snd (run_plan' (a :: plan) [])))
  = Some (request_at prompt a).
Proof.
  destruct a as [mdl parap]; cbn [run_plan].
  destruct (try_block_cases generate_content prompt mdl parap [])
    as [(_ & response & t & _ & _ & _ & ->)|(_ & d & -> & _)].
  - reflexivity.
  - destruct (run_plan_shape plan
                ([] ++ [Generate (request_of prompt mdl parap); Sleep d]))
      as (ext & -> & _).
    reflexivity.
Qed.

End TraceFacts.

Section ShapeFacts.

Lemma run_shape_counts (hit : bool) (ext : list Event) :
  run_shape hit ext ->
  invocations ext
  = List.length (pauses ext) + (if hit then 1 else 0).
Proof.
  induction 1 as [|req|req d hit ext _ _ IH]; [reflexivity|reflexivity|].
  unfold invocations, pauses in *;
    cbn [filter is_generate flat_map app List.length]; now rewrite IH.
Qed.

Lemma inject_succ (n : nat) :
  (inject_Z (Z.of_nat (S n)) == inject_Z (Z.of_nat n) + 1)%Q.
Proof. rewrite Nat2Z.inj_succ, <- Z.add_1_r, inject_Z_plus; reflexivity. Qed.

Lemma run_shape_slept (hit : bool) (ext : list Event) :
  run_shape hit ext ->
  (0.4 * inject_Z (Z.of_nat (List.length (pauses ext))) <= slept ext)%Q
  /\ (slept ext <= 0.6 * inject_Z (Z.of_nat (List.length (pauses ext))))%Q.
Proof.
  induction 1 as [|req|req d hit ext Hd _ [IH1 IH2]].
  - split; cbv; discriminate.
  - split; cbv; discriminate.
  - change (pauses (Generate req :: Sleep d :: ext)) with (d :: pauses ext).
    change (slept (Generate req :: Sleep d :: ext)) with (d + slept ext)%Q.
    cbn [List.length]; rewrite inject_succ.
    destruct Hd as [-> | ->]; split; lra.
Qed.

End ShapeFacts.

Lemma firstn_incl {A : Type} (n : nat) (l : list A) (x : A) :
  In x (firstn n l) -> In x l.
Proof.
  revert l; induction n as [|n IH]; intros [|y l]; cbn [firstn In];
    try tauto.
  intros [->|H]; auto.
Qed.

Section BudgetFacts.

Variable charref_sub : str -> str.
Variable generate_content : list Event -> Request -> Outcome.
Variable prompt : str.

Lemma attempt_plan_cap (model_name : str) :
  List.length (attempt_plan model_name)
  = if contains (lit "flash") model_name then 3 else 6.
Proof.
  unfold attempt_plan; destruct (contains (lit "flash") model_name);
    reflexivity.
Qed.

Lemma attempt_plan_head (model_name : str) :
  exists rest, attempt_plan model_name = (model_name, fun q => q) :: rest.
Proof.
  unfold attempt_plan; destruct (contains (lit "flash") model_name);
    eexists; reflexivity.
Qed.

Lemma attempt_plan_models (model_name : str) (a : str * (str -> str)) :
  In a (attempt_plan model_name) ->
  fst a = model_name \/ fst a = FAST_MODEL.
Proof.
  unfold attempt_plan; destruct (contains (lit "flash") model_name);
    cbn [flat_map map paraphrases app In]; intro H;
    repeat (destruct H as [<-|H]; [cbn [fst]; auto|]); destruct H.
Qed.

(** The calls of the controller are at most as many as the plan is long. *)
Lemma kelly_reply_invocations (model_name : str) (max_retries : Z) :
  invocations
    (snd (kelly_reply charref_sub generate_content prompt model_name
            max_retries))
  <= Nat.min (Z.to_nat max_retries) (List.length (attempt_plan model_name)).
Proof.
  rewrite kelly_reply_plan_reply; unfold plan_reply.
  set (plan := firstn (Z.to_nat max_retries) (attempt_plan model_name)).
  destruct (run_plan_requests generate_content prompt plan [])
    as (n & Hn & Hreq & _).
  change (requests []) with (@nil Request) in Hreq.
  assert (List.length plan
          = Nat.min (Z.to_nat max_retries)
              (List.length (attempt_plan model_name))) as Hlen
    by apply length_firstn.
  destruct (run_plan generate_content prompt plan []) as [[r|] tr];
    cbn [fst snd app] in *;
    rewrite invocations_requests, Hreq, length_map, length_firstn; lia.
Qed.

(** The reply is the text of a call, tagged as remote, or the poem, tagged
    as fallback. *)
Lemma kelly_reply_cases (model_name : str) (max_retries : Z) :
  let res :=
    kelly_reply charref_sub generate_content prompt model_name max_retries in
  (snd (fst res) = lit "gemini" /\ fst (fst res) <> [])
  \/ fst res = (local_poem_fallback charref_sub prompt, lit "fallback").
Proof.
  intro res; subst res.
  rewrite kelly_reply_plan_reply; unfold plan_reply.
  set (plan := firstn (Z.to_nat max_retries) (attempt_plan model_name)).
  pose proof (run_plan_reply generate_content prompt plan []) as Hreply.
  destruct (run_plan generate_content prompt plan []) as [[r|] tr];
    cbn [fst snd] in *; [left|now right].
  destruct (Hreply r eq_refl) as (Hne & Htag & _); auto.
Qed.

End BudgetFacts.



(** X8: a budget beyond the plan changes nothing.  For a model whose name
    holds [flash] every budget of 3 or more gives the reply and the events
    of the budget 3, and for any other model every budget of 6 or more
    gives those of the budget 6. *)
Theorem kelly_reply_saturates (charref_sub : str -> str)
  (generate_content : list Event -> Request -> Outcome)
  (prompt model_name : str) (max_retries : Z) :
  let cap := if contains (lit "flash") model_name then 3%Z else 6%Z in
  (cap <= max_retries)%Z ->
  kelly_reply charref_sub generate_content prompt model_name max_retries
  = kelly_reply charref_sub generate_content prompt model_name cap.
Proof.
  intros cap H; rewrite !kelly_reply_plan_reply; unfold plan_reply.
  pose proof (attempt_plan_cap model_name) as L.
  rewrite !firstn_all2; [reflexivity| |];
    subst cap; destruct (contains (lit "flash") model_name); lia.
Qed.

Lemma kelly_reply_saturates_witness :
  kelly_reply no_charref always_blocks gan_prompt DEFAULT_MODEL 6
  = kelly_reply no_charref always_blocks gan_prompt DEFAULT_MODEL 3.
Proof.
  apply (kelly_reply_saturates no_charref always_blocks gan_prompt
           DEFAULT_MODEL 6); vm_compute; discriminate.
Defined.

(** X9: every remote call that yields no text, the last one before the
    fallback included, is followed at once by a pause: 0.6 seconds when
    the call raised or the first candidate has the finish reason 2, and
    0.4 seconds otherwise. *)
Theorem kelly_reply_pause_after_failure (charref_sub : str -> str)
  (generate_content : list Event -> Request -> Outcome)
  (prompt model_name : str) (max_retries : Z)
  (before : list Event) (req : Request) (after : list Event) :
  snd (kelly_reply charref_sub generate_content prompt model_name max_retries)
  = before ++ Generate req :: after ->
  yields_text (generate_content before req) = false ->
  exists rest,
    after = Sleep (pause_after (generate_content before req)) :: rest.
Proof.
  rewrite kelly_reply_plan_reply; unfold plan_reply.
  set (plan := firstn (Z.to_nat max_retries) (attempt_plan model_name)).
  destruct (run_plan_pauses generate_content prompt plan [])
    as (ext & Hext & Hpause).
  destruct (run_plan generate_content prompt plan []) as [[r|] tr];
    cbn [fst snd app] in *; subst ext; intros Htr Hno;
    exact (Hpause before req after Htr Hno).
Qed.

Lemma kelly_reply_pause_after_failure_witness :
  exists rest,
    tl (snd (kelly_reply no_charref always_blocks (lit "hi") DEFAULT_MODEL 1))
    = Sleep 0.6%Q :: rest.
Proof.
  apply (kelly_reply_pause_after_failure no_charref always_blocks (lit "hi")
           DEFAULT_MODEL 1 []
           (request_of (lit "hi") DEFAULT_MODEL (fun q => q))
           (tl (snd (kelly_reply no_charref always_blocks (lit "hi")
                       DEFAULT_MODEL 1))));
    reflexivity.
Defined.

(** X10: the controller pauses once per call without text: as often as it
    calls when it falls back, once less when a call gives the reply.  The
    pauses add up to at most 0.6 seconds per call, and to at most 3.6
    seconds whatever the budget. *)
Theorem kelly_reply_pauses (charref_sub : str -> str)
  (generate_content : list Event -> Request -> Outcome)
  (prompt model_name : str) (max_retries : Z) :
  let res :=
    kelly_reply charref_sub generate_content prompt model_name max_retries in
  let tr := snd res in
  (snd (fst res) = lit "fallback" ->
   List.length (pauses tr) = invocations tr)
  /\ (snd (fst res) = lit "gemini" ->
      S (List.length (pauses tr)) = invocations tr)
  /\ (slept tr <= 0.6 * inject_Z (Z.of_nat (invocations tr)))%Q
  /\ (slept tr <= 3.6)%Q.
Proof.
  intros res tr.
  pose proof (kelly_reply_invocations charref_sub generate_content prompt
                model_name max_retries) as Hcap.
  pose proof (attempt_plan_length model_name) as Hplan.
  fold res tr in Hcap; subst tr res.
  rewrite kelly_reply_plan_reply in *; unfold plan_reply in *.
  set (plan := firstn (Z.to_nat max_retries) (attempt_plan model_name)) in *.
  destruct (run_plan_shape generate_content prompt plan [])
    as (ext & Hext & Hshape).
  pose proof (run_plan_reply generate_content prompt plan []) as Hreply.
  destruct (run_plan generate_content prompt plan []) as [[r|] tr];
    cbn [fst snd app is_some] in *; subst ext;
    pose proof (run_shape_counts _ _ Hshape) as Hcount;
    cbv iota in Hcount;
    destruct (run_shape_slept _ _ Hshape) as [_ Hslept].
  - destruct (Hreply r eq_refl) as (_ & Htag & _).
    assert (inject_Z (Z.of_nat (List.length (pauses tr)))
            <= inject_Z (Z.of_nat (invocations tr)))%Q as H1
      by (rewrite <- Zle_Qle; lia).
    assert (inject_Z (Z.of_nat (invocations tr)) <= 6)%Q as H2
      by (change 6%Q with (inject_Z 6); rewrite <- Zle_Qle; lia).
    split; [rewrite Htag; intro H; vm_compute in H; discriminate H|].
    split; [intros _; lia|]; split; lra.
  - assert (inject_Z (Z.of_nat (List.length (pauses tr)))
            <= inject_Z (Z.of_nat (invocations tr)))%Q as H1
      by (rewrite <- Zle_Qle; lia).
    assert (inject_Z (Z.of_nat (invocations tr)) <= 6)%Q as H2
      by (change 6%Q with (inject_Z 6); rewrite <- Zle_Qle; lia).
    split; [intros _; lia|].
    split; [intro H; vm_compute in H; discriminate H|]; split; lra.
Qed.

(** X11: the controller calls no model but the preferred one and the fast
    one, always with the same generation parameters and safety settings
    and with one text; with a budget of at least one attempt its first
    call goes to the preferred model with the composed text as it is. *)
Theorem kelly_reply_requests (charref_sub : str -> str)
  (generate_content : list Event -> Request -> Outcome)
  (prompt model_name : str) (max_retries : Z) :
  let res :=
    kelly_reply charref_sub generate_content prompt model_name max_retries in
  (forall req, In req (requests (snd res)) ->
     (model req = model_name \/ model req = FAST_MODEL)
     /\ generation_config req = the_generation_config
     /\ safety_settings req = the_safety_settings
     /\ exists text, contents req = [text])
  /\ ((1 <= max_retries)%Z ->
      exists req,
        hd_error (requests (snd res)) = Some req
        /\ model req = model_name
        /\ contents req = [base_prompt prompt]).
Proof.
  intro res; subst res.
  rewrite kelly_reply_plan_reply; unfold plan_reply.
  set (plan := firstn (Z.to_nat max_retries) (attempt_plan model_name)).
  destruct (run_plan_requests generate_content prompt plan [])
    as (n & Hn & Hreq & _).
  change (requests []) with (@nil Request) in Hreq.
  pose proof (fun a rest => run_plan_first_request generate_content prompt
                              a rest) as Hfirst.
  assert (forall tr, tr = snd (run_plan generate_content prompt plan []) ->
          snd (let (o, tr0) := run_plan generate_content prompt plan [] in
               match o with
               | Some r => (r, tr0)
               | None =>
                   (local_poem_fallback charref_sub prompt, lit "fallback",
                    tr0)
               end) = tr) as Hsnd.
  { intros tr ->.
    destruct (run_plan generate_content prompt plan []) as [[r|] tr];
      reflexivity. }
  rewrite (Hsnd _ eq_refl); split.
  - intros req Hin; rewrite Hreq in Hin; cbn [app] in Hin.
    apply in_map_iff in Hin as (a & <- & Ha).
    assert (In a (attempt_plan model_name)) as Ha'
      by exact (firstn_incl (Z.to_nat max_retries) _ a
                  (firstn_incl n plan a Ha)).
    split; [exact (attempt_plan_models model_name a Ha')|].
    split; [reflexivity|split; [reflexivity|eexists; reflexivity]].
  - intro Hpos.
    destruct (attempt_plan_head model_name) as (rest & Hhead).
    assert (plan = (model_name, fun q => q)
                   :: firstn (Z.to_nat max_retries - 1) rest) as ->.
    { unfold plan; rewrite Hhead.
      replace (Z.to_nat max_retries) with (S (Z.to_nat max_retries - 1))
        at 1 by lia.
      reflexivity. }
    rewrite Hfirst; eexists; split; [reflexivity|].
    split; [reflexivity|].
    unfold request_at, request_of; cbn [fst snd contents].
    now rewrite replace_same.
Qed.

(** ** The chat session *)

Section ChatFacts.

Variable charref_sub : str -> str.

Lemma paired_app (n : nat) :
  forall h t : Chat.History,
    List.length h <= n -> Chat.paired h -> Chat.paired t ->
    Chat.paired (h ++ t).
Proof.
  induction n as [|n IH]; intros [|u [|a h]] t L Hh Ht; cbn [app];
    try exact Ht; try (destruct Hh; fail); cbn [List.length] in L;
    [lia|].
  destruct Hh as (Hu & Ha & Hc & Hh).
  change (Chat.paired (u :: a :: h ++ t))
    with (Chat.role u = lit "user" /\ Chat.role a = lit "assistant"
          /\ Chat.content a <> [] /\ Chat.paired (h ++ t)).
  repeat split; try assumption.
  apply IH; [lia|assumption|assumption].
Qed.

(** What asking does to the transcript. *)
Lemma ask_kelly_cases (generate_content : list Event -> Request -> Outcome)
  (h : Chat.History) (input model : str) (max_retries : Z) :
  let res :=
    kelly_reply charref_sub generate_content input model max_retries in
  (has_ink input = false ->
   Chat.ask_kelly charref_sub generate_content h input model max_retries
   = (h, []))
  /\ (has_ink input = true ->
      exists text,
        Chat.ask_kelly charref_sub generate_content h input model max_retries
        = (h ++ [ {| Chat.role := lit "user"; Chat.content := input |};
                  {| Chat.role := lit "assistant"; Chat.content := text |} ],
           snd res)
        /\ text <> []
        /\ ((snd (fst res) = lit "gemini" /\ text = fst (fst res))
            \/ (snd (fst res) = lit "fallback"
                /\ text
                   = local_poem_fallback charref_sub input
                     ++ Chat.FALLBACK_NOTE))).
Proof.
  intro res; unfold Chat.ask_kelly; rewrite strip_truthy_ink.
  split; intros ->; [reflexivity|].
  fold res.
  destruct (kelly_reply_cases charref_sub generate_content input model
              max_retries) as [[Htag Hne]|Hfall]; fold res in Htag, Hne || fold res in Hfall;
    destruct res as [[text source] tr]; cbn [fst snd] in *.
  - subst source; exists text; rewrite <- app_assoc.
    split; [reflexivity|]; split; [exact Hne|now left].
  - injection Hfall as -> ->.
    exists (local_poem_fallback charref_sub input ++ Chat.FALLBACK_NOTE).
    rewrite <- app_assoc.
    split; [reflexivity|]; split; [|now right].
    intro E; apply app_eq_nil in E as [E _].
    exact (local_poem_fallback_nonempty charref_sub input E).
Qed.

End ChatFacts.

(** X13: a run of the script makes at most 6 remote calls and no more than
    the slider allows, and it makes a call only when the API key is set,
    the ask button was clicked, the input has a visible code point and the
    slider is at 1 or more. *)
Theorem rerun_calls (charref_sub : str -> str)
  (generate_content : list Event -> Request -> Outcome)
  (key : option str) (session : option Chat.History) (w : Chat.Widgets) :
  let tr := snd (Chat.rerun charref_sub generate_content key session w) in
  invocations tr <= 6
  /\ (Z.of_nat (invocations tr) <= Z.max 0 (Chat.retries w))%Z
  /\ (invocations tr <> 0 ->
      opt_truthy key = true
      /\ Chat.ask_clicked w = true
      /\ has_ink (Chat.user_input w) = true
      /\ (1 <= Chat.retries w)%Z).
Proof.
  intro tr; subst tr; unfold Chat.rerun.
  destruct (opt_truthy key); cbn [negb fst snd];
    [|cbn; repeat split; try lia; congruence].
  set (h := match (if Chat.clear_clicked w then Some [] else session) with
            | Some h0 => h0
            | None => []
            end).
  clearbody h.
  destruct (Chat.ask_clicked w);
    [|cbn; repeat split; try lia; congruence].
  destruct (ask_kelly_cases charref_sub generate_content h
              (Chat.user_input w) (Chat.model_choice w) (Chat.retries w))
    as [Hblank Hink].
  destruct (has_ink (Chat.user_input w)).
  - destruct (Hink eq_refl) as (text & E & _); rewrite E; cbn [fst snd].
    pose proof (kelly_reply_invocations charref_sub generate_content
                  (Chat.user_input w) (Chat.model_choice w) (Chat.retries w))
      as Hcap.
    pose proof (attempt_plan_length (Chat.model_choice w)) as Hplan.
    repeat split; lia.
  - rewrite (Hblank eq_refl); cbn; repeat split; try lia; congruence.
Qed.

(** X16: without an API key, absent or empty, no run of the script
    changes the session. *)
Theorem session_runs_without_key (charref_sub : str -> str)
  (key : option str)
  (runs : list (Chat.Widgets * (list Event -> Request -> Outcome)))
  (session : option Chat.History) :
  opt_truthy key = false ->
  Chat.session_runs charref_sub key session runs = session.
Proof.
  intro K; induction runs as [|[w remote] runs IH];
    cbn [Chat.session_runs]; [reflexivity|].
  unfold Chat.rerun at 1; rewrite K; cbn [negb]; exact IH.
Qed.

Lemma session_runs_without_key_witness :
  Chat.session_runs no_charref (Some []) None two_questions = None.
Proof. apply session_runs_without_key; reflexivity. Defined.

(** ** Candidates side by side *)

Section CandidateFacts.

Lemma response_texts_app (cs1 cs2 : list Candidate) :
  response_texts {| candidates := Some (cs1 ++ cs2) |}
  = response_texts {| candidates := Some cs1 |}
    ++ response_texts {| candidates := Some cs2 |}.
Proof. unfold response_texts; cbn [candidates or_nil]; apply flat_map_app. Qed.

Lemma join_app (sep : str) (l1 l2 : list str) :
  l1 <> [] -> l2 <> [] ->
  join sep (l1 ++ l2) = join sep l1 ++ sep ++ join sep l2.
Proof.
  intros H1 H2; induction l1 as [|x [|y l1] IH]; [congruence| |].
  - destruct l2; [congruence|reflexivity].
  - change (join sep ((x :: y :: l1) ++ l2))
      with (x ++ sep ++ join sep ((y :: l1) ++ l2)).
    rewrite IH by discriminate.
    change (join sep (x :: y :: l1)) with (x ++ sep ++ join sep (y :: l1)).
    now rewrite <- !app_assoc.
Qed.

Lemma join_truthy_nonempty (sep : str) (l : list str) :
  l <> [] -> (forall x, In x l -> x <> []) -> join sep l <> [].
Proof.
  destruct l as [|x [|y l]]; [congruence| |]; intros _ H.
  - apply H; now left.
  - change (join sep (x :: y :: l)) with (x ++ sep ++ join sep (y :: l)).
    intro E; apply app_eq_nil in E as [E _]; revert E; apply H; now left.
Qed.

(** The extractor in terms of the trimmed pieces of the response. *)
Lemma extract_text_pieces (r : Response) :
  let pieces := filter truthy (map strip (response_texts r)) in
  (opt_truthy (extract_text_from_response r) = false -> pieces = [])
  /\ (forall t, extract_text_from_response r = Some t -> t <> [] ->
      pieces <> [] /\ t = join [LF] pieces)
  /\ (pieces <> [] -> extract_text_from_response r = Some (join [LF] pieces)).
Proof.
  intro pieces; subst pieces; rewrite extract_text_unfold.
  assert (forall x, In x (filter truthy (map strip (response_texts r))) ->
          x <> []) as Hne
    by (intros x Hx; apply filter_In in Hx as [_ Hx];
        now apply truthy_nonempty).
  destruct (filter truthy (response_texts r)) as [|k kept] eqn:E.
  - assert (filter truthy (map strip (response_texts r)) = []) as ->.
    { apply filter_trimmed_nil; intros t Ht.
      now rewrite (proj1 (filter_truthy_nil _) E t Ht). }
    repeat split; try congruence; discriminate.
  - rewrite <- E, trimmed_kept.
    destruct (filter truthy (map strip (response_texts r))) as [|x xs] eqn:F.
    + split; [intros _; reflexivity|]; split.
      * intros u [= <-] Hu; exfalso; apply Hu; reflexivity.
      * intro Hc; exfalso; apply Hc; reflexivity.
    + split; [|split; [intros u [= <-] _; split; [discriminate|reflexivity]
                      |reflexivity]].
      cbn [opt_truthy]; intro H; exfalso.
      apply (join_truthy_nonempty [LF] (x :: xs)); [discriminate|exact Hne|].
      now destruct (join [LF] (x :: xs)).
Qed.

End CandidateFacts.

(** X17: the text of a response is the text of its candidates in order:
    when the first candidates and the remaining ones each yield text on
    their own, all together yield the two texts joined by a line feed, and
    candidates that yield no text on their own add nothing to the text of
    the others. *)
Theorem extract_text_candidates (cs1 cs2 : list Candidate) (t1 : str) :
  let extract cs := extract_text_from_response {| candidates := Some cs |} in
  extract cs1 = Some t1 -> t1 <> [] ->
  (forall t2, extract cs2 = Some t2 -> t2 <> [] ->
   extract (cs1 ++ cs2) = Some (t1 ++ [LF] ++ t2))
  /\ (opt_truthy (extract cs2) = false ->
      extract (cs1 ++ cs2) = Some t1 /\ extract (cs2 ++ cs1) = Some t1).
Proof.
  intros extract E1 N1; subst extract.
  destruct (extract_text_pieces {| candidates := Some cs1 |})
    as (_ & H1 & _).
  destruct (H1 t1 E1 N1) as [P1 ->].
  destruct (extract_text_pieces {| candidates := Some cs2 |})
    as (B2 & H2 & _).
  destruct (extract_text_pieces {| candidates := Some (cs1 ++ cs2) |})
    as (_ & _ & G12).
  destruct (extract_text_pieces {| candidates := Some (cs2 ++ cs1) |})
    as (_ & _ & G21).
  cbv zeta in *.
  rewrite response_texts_app, map_app, filter_app in G12, G21.
  split.
  - intros t2 E2 N2; destruct (H2 t2 E2 N2) as [P2 ->].
    rewrite G12; [now rewrite join_app|].
    intro E; apply app_eq_nil in E as [E _]; now apply P1.
  - intro F; rewrite (B2 F) in *; rewrite app_nil_r in G12.
    cbn [app] in G21; split; [now apply G12|now apply G21].
Qed.

Lemma extract_text_candidates_witness :
  extract_text_from_response
    {| candidates :=
         Some (or_nil (candidates mixed_response)
               ++ or_nil (candidates blank_response)) |}
  = Some (lit "first" ++ [LF] ++ lit "second" ++ [LF] ++ lit "third").
Proof.
  apply (extract_text_candidates (or_nil (candidates mixed_response))
           (or_nil (candidates blank_response)));
    [reflexivity|discriminate|reflexivity].
Defined.

(** * The program with its exception *)

Section ExnFacts.

Variable charref_sub : str -> option str.

Lemma exn_html_unescape_plain (s : str) :
  has_amp s = false -> Exn.html_unescape charref_sub s = Some s.
Proof. unfold Exn.html_unescape, has_amp; now intros ->. Qed.

(** When the substitution returns, the functions that take it as
    returning give what the program gives. *)
Lemma exn_html_unescape_returned (s u : str) :
  Exn.html_unescape charref_sub s = Some u ->
  html_unescape (returned charref_sub) s = u.
Proof.
  unfold Exn.html_unescape, html_unescape, returned.
  destruct (existsb (fun c => (c =? AMP)%N) s); [intros ->|intros [= ->]];
    reflexivity.
Qed.

Lemma exn_local_poem_fallback_returned (prompt u : str) :
  Exn.html_unescape charref_sub prompt = Some u ->
  Exn.local_poem_fallback charref_sub prompt
  = Some (local_poem_fallback (returned charref_sub) prompt).
Proof.
  intro H; unfold Exn.local_poem_fallback, local_poem_fallback.
  now rewrite H, (exn_html_unescape_returned prompt u H).
Qed.

Lemma exn_local_poem_fallback_raised (prompt : str) :
  Exn.html_unescape charref_sub prompt = None ->
  Exn.local_poem_fallback charref_sub prompt = None.
Proof. intro H; unfold Exn.local_poem_fallback; now rewrite H. Qed.

Lemma exn_local_poem_fallback_nonempty (prompt poem : str) :
  Exn.local_poem_fallback charref_sub prompt = Some poem -> poem <> [].
Proof.
  unfold Exn.local_poem_fallback.
  destruct (Exn.html_unescape charref_sub prompt) as [u|]; [|discriminate].
  cbv zeta; destruct (List.length (split (strip u)) <=? 3); intros [= <-];
    discriminate.
Qed.

(** The controller as a run of the plan, the fallback with its
    exception. *)
Lemma exn_kelly_reply_plan
  (generate_content : list Event -> Request -> Outcome)
  (prompt model_name : str) (max_retries : Z) :
  Exn.kelly_reply charref_sub generate_content prompt model_name max_retries
  = match
      run_plan generate_content prompt
        (firstn (Z.to_nat max_retries) (attempt_plan model_name)) []
    with
    | (Some r, tr) => (Some r, tr)
    | (None, tr) =>
        match Exn.local_poem_fallback charref_sub prompt with
        | Some poem => (Some (poem, lit "fallback"), tr)
        | None => (None, tr)
        end
    end.
Proof.
  unfold Exn.kelly_reply.
  pose proof (for_models_plan generate_content prompt max_retries
                (model_attempts model_name)
                {| attempt := 0; trace := [] |}) as H.
  cbv zeta in H; unfold budget in H; cbn [attempt trace] in H.
  rewrite Z.sub_0_r, model_attempts_plan in H; rewrite H.
  destruct (for_models generate_content prompt max_retries
              (model_attempts model_name) {| attempt := 0; trace := [] |})
    as [[r|] st']; reflexivity.
Qed.

(** The events of the controller do not depend on the exception, and a
    reply it returns is the reply of the controller that takes the
    substitution as returning: what is proved of that one holds of every
    reply returned. *)
Lemma exn_kelly_reply_returned
  (generate_content : list Event -> Request -> Outcome)
  (prompt model_name : str) (max_retries : Z) :
  let res :=
    Exn.kelly_reply charref_sub generate_content prompt model_name
      max_retries in
  let res' :=
    kelly_reply (returned charref_sub) generate_content prompt model_name
      max_retries in
  snd res = snd res' /\ (forall r, fst res = Some r -> r = fst res').
Proof.
  intros res res'; subst res res'.
  rewrite exn_kelly_reply_plan, kelly_reply_plan_reply; unfold plan_reply.
  destruct (run_plan generate_content prompt
              (firstn (Z.to_nat max_retries) (attempt_plan model_name)) [])
    as [[r0|] tr].
  - split; [reflexivity|now intros r [= <-]].
  - destruct (Exn.html_unescape charref_sub prompt) as [u|] eqn:U.
    + rewrite (exn_local_poem_fallback_returned prompt u U).
      split; [reflexivity|now intros r [= <-]].
    + rewrite (exn_local_poem_fallback_raised prompt U).
      split; [reflexivity|discriminate].
Qed.

(** The three ways the controller ends: with the text of a call, with the
    poem, or with the exception of [html.unescape] after the attempts. *)
Lemma exn_kelly_reply_cases
  (generate_content : list Event -> Request -> Outcome)
  (prompt model_name : str) (max_retries : Z) :
  let res :=
    Exn.kelly_reply charref_sub generate_content prompt model_name
      max_retries in
  (exists text, fst res = Some (text, lit "gemini") /\ text <> [])
  \/ (exists poem,
        Exn.local_poem_fallback charref_sub prompt = Some poem
        /\ fst res = Some (poem, lit "fallback"))
  \/ (Exn.html_unescape charref_sub prompt = None /\ fst res = None).
Proof.
  intro res; subst res; rewrite exn_kelly_reply_plan.
  set (plan := firstn (Z.to_nat max_retries) (attempt_plan model_name)).
  pose proof (run_plan_reply generate_content prompt plan []) as Hreply.
  destruct (run_plan generate_content prompt plan []) as [[[text tag]|] tr];
    cbn [fst snd] in *.
  - left; destruct (Hreply _ eq_refl) as (Hne & Htag & _);
      cbn [fst snd] in *; subst tag; now exists text.
  - right.
    destruct (Exn.local_poem_fallback charref_sub prompt) as [poem|] eqn:E;
      [left; now exists poem|right].
    split; [|reflexivity].
    unfold Exn.local_poem_fallback in E.
    destruct (Exn.html_unescape charref_sub prompt); [discriminate|easy].
Qed.

(** What asking does to the transcript. *)
Lemma exn_ask_kelly_cases
  (generate_content : list Event -> Request -> Outcome)
  (h : Chat.History) (input model : str) (max_retries : Z) :
  let res :=
    Exn.kelly_reply charref_sub generate_content input model max_retries in
  let user := {| Chat.role := lit "user"; Chat.content := input |} in
  (has_ink input = false ->
   Exn.ask_kelly charref_sub generate_content h input model max_retries
   = (h, [], false))
  /\ (has_ink input = true ->
      (exists text source answer,
         fst res = Some (text, source)
         /\ Exn.ask_kelly charref_sub generate_content h input model
              max_retries
            = (h ++ [ user;
                      {| Chat.role := lit "assistant";
                         Chat.content := answer |} ],
               snd res, false)
         /\ answer <> []
         /\ ((source = lit "gemini" /\ answer = text)
             \/ (source = lit "fallback"
                 /\ Exn.local_poem_fallback charref_sub input = Some text
                 /\ answer = text ++ Chat.FALLBACK_NOTE)))
      \/ (fst res = None
          /\ Exn.html_unescape charref_sub input = None
          /\ Exn.ask_kelly charref_sub generate_content h input model
               max_retries
             = (h ++ [user], snd res, true))).
Proof.
  intros res user; unfold Exn.ask_kelly; rewrite strip_truthy_ink.
  split; intros ->; [reflexivity|]; fold res user.
  destruct (exn_kelly_reply_cases generate_content input model max_retries)
    as [(text & E & Hne)|[(poem & P & E)|(U & E)]];
    fold res in E; destruct res as [reply tr]; cbn [fst snd] in *;
    subst reply.
  - left; exists text, (lit "gemini"), text; rewrite <- app_assoc.
    repeat split; auto.
  - left; exists poem, (lit "fallback"), (poem ++ Chat.FALLBACK_NOTE).
    rewrite <- app_assoc; repeat split; auto.
    intro N; apply app_eq_nil in N as [N _].
    exact (exn_local_poem_fallback_nonempty input poem P N).
  - right; auto.
Qed.

End ExnFacts.

(** C1, as the code has it: for every prompt on which [html.unescape]
    returns, and so for every prompt without ampersand, the empty one and
    those of white space or of other punctuation only among them, the
    fallback returns a text that is not empty, made of the first 4 or of
    all 6 entries of the template joined by line feeds.  The text has 4 or
    6 lines plus one line for every line feed of the topic, so exactly 4
    or 6 lines whenever the un-escaped prompt holds no line feed. *)
Theorem local_poem_fallback_returns (charref_sub : str -> option str)
  (prompt : str) :
  (has_amp prompt = false ->
   Exn.html_unescape charref_sub prompt = Some prompt)
  /\ forall u,
       Exn.html_unescape charref_sub prompt = Some u ->
       exists poem,
         Exn.local_poem_fallback charref_sub prompt = Some poem
         /\ poem <> []
         /\ (exists n, (n = 4 \/ n = 6)
               /\ poem
                  = join [LF] (firstn n (poem_lines (poem_topic (strip u))))
               /\ line_count poem
                  = n + count_char LF (poem_topic (strip u)))
         /\ (count_char LF u = 0 ->
             line_count poem = 4 \/ line_count poem = 6).
Proof.
  split; [apply exn_html_unescape_plain|intros u Hu].
  exists (local_poem_fallback (returned charref_sub) prompt).
  split; [now apply (exn_local_poem_fallback_returned charref_sub prompt u)|].
  split; [apply local_poem_fallback_nonempty|].
  destruct (local_poem_fallback_shape (returned charref_sub) prompt)
    as [Hjoin Hcount].
  rewrite (exn_html_unescape_returned charref_sub prompt u Hu)
    in Hjoin, Hcount.
  split.
  - eexists; split; [|split; [exact Hjoin|exact Hcount]].
    destruct (List.length (split (strip u)) <=? 3); auto.
  - intro Hflat.
    assert (count_char LF (poem_topic (strip u)) = 0) as Htopic.
    { pose proof (poem_topic_LF (strip u)) as H1.
      pose proof (count_char_strip LF u) as H2; lia. }
    rewrite Hcount, Htopic.
    destruct (List.length (split (strip u)) <=? 3); auto.
Qed.

Lemma local_poem_fallback_returns_witness :
  exists poem,
    Exn.local_poem_fallback failing_charref (lit "?!") = Some poem
    /\ poem <> []
    /\ (line_count poem = 4 \/ line_count poem = 6).
Proof.
  destruct (local_poem_fallback_returns failing_charref (lit "?!"))
    as [Hplain Hpoem].
  destruct (Hpoem (lit "?!") (Hplain eq_refl))
    as (poem & E & Hne & _ & Hlines).
  exists poem; split; [exact E|]; split; [exact Hne|].
  apply Hlines; reflexivity.
Defined.

(** C1 as stated fails: a prompt of two lines yields a poem of 5 lines,
    whatever the substitution of the references does. *)
Lemma local_poem_fallback_five_lines :
  (forall charref_sub,
     exists poem,
       Exn.local_poem_fallback charref_sub two_line_prompt = Some poem
       /\ line_count poem = 5)
  /\ (forall sub, line_count (local_poem_fallback sub two_line_prompt) = 5)
  /\ 5 <> 4 /\ 5 <> 6.
Proof.
  split; [intro c; eexists; split; vm_compute; reflexivity|].
  split; [intro sub; vm_compute; reflexivity|]; split; discriminate.
Qed.

Section ExnChatFacts.

Variable charref_sub : str -> option str.

Lemma exn_ask_kelly_paired
  (generate_content : list Event -> Request -> Outcome)
  (h : Chat.History) (input model : str) (max_retries : Z) :
  Exn.html_unescape charref_sub input <> None ->
  Chat.paired h ->
  Chat.paired
    (fst (fst (Exn.ask_kelly charref_sub generate_content h input model
                 max_retries))).
Proof.
  intros Hu Hh.
  destruct (exn_ask_kelly_cases charref_sub generate_content h input model
              max_retries) as [Hblank Hink].
  destruct (has_ink input).
  - destruct (Hink eq_refl)
      as [(text & source & answer & _ & -> & Hne & _)|(_ & U & _)];
      [|congruence].
    cbn [fst]; apply (paired_app (List.length h)); [lia|exact Hh|].
    cbn; auto.
  - now rewrite (Hblank eq_refl).
Qed.

Lemma exn_rerun_paired
  (generate_content : list Event -> Request -> Outcome)
  (key : option str) (session : option Chat.History) (w : Chat.Widgets) :
  Exn.html_unescape charref_sub (Chat.user_input w) <> None ->
  (forall h, session = Some h -> Chat.paired h) ->
  forall h',
    snd (fst (Exn.rerun charref_sub generate_content key session w))
    = Some h' ->
    Chat.paired h'.
Proof.
  intros Hu Hs h'; unfold Exn.rerun.
  destruct (negb (opt_truthy key)); cbn [fst snd]; [apply Hs|].
  assert (forall h, (if Chat.clear_clicked w then Some [] else session)
                    = Some h -> Chat.paired h) as Hc.
  { destruct (Chat.clear_clicked w); [intros h [= <-]; exact I|exact Hs]. }
  destruct (if Chat.clear_clicked w then Some [] else session) as [h|].
  - destruct (Chat.ask_clicked w); [|cbn [fst snd]; intros [= <-]; auto].
    pose proof (exn_ask_kelly_paired generate_content h (Chat.user_input w)
                  (Chat.model_choice w) (Chat.retries w) Hu (Hc h eq_refl))
      as Hp.
    destruct (Exn.ask_kelly charref_sub generate_content h
                (Chat.user_input w) (Chat.model_choice w) (Chat.retries w))
      as [[h1 tr] raised]; cbn [fst snd] in *.
    now intros [= <-].
  - destruct (Chat.ask_clicked w); [|cbn [fst snd]; intros [= <-]; exact I].
    pose proof (exn_ask_kelly_paired generate_content [] (Chat.user_input w)
                  (Chat.model_choice w) (Chat.retries w) Hu I) as Hp.
    destruct (Exn.ask_kelly charref_sub generate_content []
                (Chat.user_input w) (Chat.model_choice w) (Chat.retries w))
      as [[h1 tr] raised]; cbn [fst snd] in *.
    now intros [= <-].
Qed.

End ExnChatFacts.

(** X12: asking with an input of white space only changes nothing and
    calls nothing.  Asking with any other input appends the input as the
    user typed it, and then either an answer that is not empty, the reply
    of the remote model as it is or the local poem followed by the note
    about the fallback, or, when no call gave text and [html.unescape]
    raises on the input, nothing: the exception leaves the user turn
    without answer. *)
Theorem ask_kelly_turns (charref_sub : str -> option str)
  (generate_content : list Event -> Request -> Outcome)
  (h : Chat.History) (input model : str) (max_retries : Z) :
  let res :=
    Exn.kelly_reply charref_sub generate_content input model max_retries in
  let user := {| Chat.role := lit "user"; Chat.content := input |} in
  (has_ink input = false ->
   Exn.ask_kelly charref_sub generate_content h input model max_retries
   = (h, [], false))
  /\ (has_ink input = true ->
      (exists text source answer,
         fst res = Some (text, source)
         /\ Exn.ask_kelly charref_sub generate_content h input model
              max_retries
            = (h ++ [ user;
                      {| Chat.role := lit "assistant";
                         Chat.content := answer |} ],
               snd res, false)
         /\ answer <> []
         /\ ((source = lit "gemini" /\ answer = text)
             \/ (source = lit "fallback"
                 /\ Exn.local_poem_fallback charref_sub input = Some text
                 /\ answer = text ++ Chat.FALLBACK_NOTE)))
      \/ (fst res = None
          /\ Exn.html_unescape charref_sub input = None
          /\ Exn.ask_kelly charref_sub generate_content h input model
               max_retries
             = (h ++ [user], snd res, true))).
Proof. apply exn_ask_kelly_cases. Qed.

(** X14: with the API key set and the clear button not clicked, a run of
    the script keeps every turn of the transcript.  It either runs to its
    end and adds no turn or two, or it is ended by the exception of
    [html.unescape] on the input and has added the user turn alone. *)
Theorem rerun_turns (charref_sub : str -> option str)
  (generate_content : list Event -> Request -> Outcome)
  (key : option str) (session : option Chat.History) (w : Chat.Widgets) :
  opt_truthy key = true ->
  Chat.clear_clicked w = false ->
  let h := match session with Some h0 => h0 | None => [] end in
  let out := Exn.rerun charref_sub generate_content key session w in
  exists added,
    snd (fst out) = Some (h ++ added)
    /\ ((fst (fst out) = Exn.Finished
         /\ (added = [] \/ List.length added = 2))
        \/ (fst (fst out) = Exn.Failed
            /\ added = [ {| Chat.role := lit "user";
                            Chat.content := Chat.user_input w |} ]
            /\ Exn.html_unescape charref_sub (Chat.user_input w) = None)).
Proof.
  intros K C h out; subst h out; unfold Exn.rerun; rewrite K, C.
  cbv beta iota zeta delta [negb].
  destruct session as [h|];
    (destruct (Chat.ask_clicked w);
     [|exists []; rewrite app_nil_r; cbn [fst snd]; auto]);
    match goal with
    | |- context [Exn.ask_kelly _ _ ?hh _ _ _] =>
        destruct (exn_ask_kelly_cases charref_sub generate_content hh
                    (Chat.user_input w) (Chat.model_choice w)
                    (Chat.retries w)) as [Hblank Hink]
    end;
    (destruct (has_ink (Chat.user_input w));
     [ destruct (Hink eq_refl)
         as [(text & source & answer & _ & E & _)|(_ & U & E)];
       eexists; rewrite E; cbn [fst snd];
       (split; [reflexivity|]); [left|right]; auto
     | exists []; rewrite (Hblank eq_refl), app_nil_r; cbn [fst snd]; auto ]).
Qed.

Lemma rerun_turns_witness :
  exists added,
    snd (fst (Exn.rerun failing_charref always_raises (Some (lit "k")) None
                reference_question))
    = Some ([] ++ added)
    /\ ((fst (fst (Exn.rerun failing_charref always_raises (Some (lit "k"))
                     None reference_question)) = Exn.Finished
         /\ (added = [] \/ List.length added = 2))
        \/ (fst (fst (Exn.rerun failing_charref always_raises
                        (Some (lit "k")) None reference_question))
            = Exn.Failed
            /\ added = [ {| Chat.role := lit "user";
                            Chat.content := reference_prompt |} ]
            /\ Exn.html_unescape failing_charref reference_prompt = None)).
Proof.
  apply (rerun_turns failing_charref always_raises (Some (lit "k")) None
           reference_question); reflexivity.
Defined.

(** X15: in a session in which [html.unescape] returns on every input,
    and so in every session whose inputs hold no ampersand, the transcript
    is a sequence of pairs, a turn of the user followed by a turn of the
    assistant that is not empty, whatever is clicked and whatever the
    remote model answers. *)
Theorem session_runs_paired (charref_sub : str -> option str)
  (key : option str)
  (runs : list (Chat.Widgets * (list Event -> Request -> Outcome)))
  (session : option Chat.History) (h' : Chat.History) :
  (forall w remote, In (w, remote) runs ->
     Exn.html_unescape charref_sub (Chat.user_input w) <> None) ->
  (forall h, session = Some h -> Chat.paired h) ->
  Exn.session_runs charref_sub key session runs = Some h' ->
  Chat.paired h'.
Proof.
  revert session; induction runs as [|[w remote] runs IH];
    intros session Hu Hs; cbn [Exn.session_runs]; [apply Hs|].
  pose proof (exn_rerun_paired charref_sub remote key session w
                (Hu w remote (or_introl eq_refl)) Hs) as Hp.
  destruct (Exn.rerun charref_sub remote key session w) as [[run s1] tr];
    cbn [fst snd] in Hp.
  apply IH; [|exact Hp].
  intros w' remote' Hin; apply (Hu w' remote'); now right.
Qed.

Lemma session_runs_paired_witness :
  exists h,
    Exn.session_runs failing_charref (Some (lit "k")) None two_questions
    = Some h
    /\ List.length h = 4
    /\ Chat.paired h.
Proof.
  eexists; split; [reflexivity|]; split; [reflexivity|].
  apply (session_runs_paired failing_charref (Some (lit "k")) two_questions
           None); [|discriminate|reflexivity].
  intros w remote [[= <- _]|[[= <- _]|[]]]; discriminate.
Defined.


